(** * Juristream: agenda aggregation, task lifecycle views and update thread

    A shallow embedding of the logic of [src/pages/AgendaPage.tsx],
    [src/pages/CasesPage.tsx] and the tasks page ([src/unnamed/part_000]),
    together with the part of the JavaScript platform these pages rely on
    ([Date] parsing and printing, [Array.prototype.sort]). *)

From Stdlib Require Import ZArith String Ascii List Bool Lia Sorted Permutation.
From stdpp Require Import base option gmap strings list fin_maps sorting.

Local Open Scope string_scope.
Local Open Scope Z_scope.
Local Open Scope list_scope.

(** ** The platform: time values and [Date] *)

(** The local time zone of the host.  [LocalTZA] is the Local Time Zone
    Adjustment of ECMAScript in milliseconds; the zone is taken with a fixed
    offset, as Brasilia time has had since 2019 ([-10800000]; the pages
    format their dates for [pt-BR]). *)
Class TimeZone := LocalTZA : Z.

Definition msPerDay : Z := 86400000.
Definition msPerHour : Z := 3600000.
Definition msPerMinute : Z := 60000.
Definition msPerSecond : Z := 1000.

(** [Day(t)], [LocalTime(t)] and [UTC(t)] of ECMAScript (20.4.1). *)
Definition Day (t : Z) : Z := t / msPerDay.
Definition LocalTime `{TimeZone} (t : Z) : Z := t + LocalTZA.
Definition UTC `{TimeZone} (t : Z) : Z := t - LocalTZA.

(** Day number of a civil date of the proleptic Gregorian calendar
    ([MakeDay] for a month in 1..12), days counted from 1970-01-01. *)
Definition MakeDay (y m d : Z) : Z :=
  let y' := if m <=? 2 then y - 1 else y in
  let era := y' / 400 in
  let yoe := y' - era * 400 in
  let mp := if 2 <? m then m - 3 else m + 9 in
  let doy := (153 * mp + 2) / 5 + d - 1 in
  let doe := yoe * 365 + yoe / 4 - yoe / 100 + doy in
  era * 146097 + doe - 719468.

(** The civil date (year, month 1..12, day of month) of a day number:
    [YearFromTime], [MonthFromTime] + 1 and [DateFromTime] at once. *)
Definition civil (days : Z) : Z * Z * Z :=
  let z := days + 719468 in
  let era := z / 146097 in
  let doe := z - era * 146097 in
  let yoe := (doe - doe / 1460 + doe / 36524 - doe / 146096) / 365 in
  let doy := doe - (365 * yoe + yoe / 4 - yoe / 100) in
  let mp := (5 * doy + 2) / 153 in
  let d := doy - (153 * mp + 2) / 5 + 1 in
  let m := if mp <? 10 then mp + 3 else mp - 9 in
  let y := yoe + era * 400 in
  (if m <=? 2 then y + 1 else y, m, d).

(** [WeekDay(t)]: 0 is Sunday; 1970-01-01 was a Thursday. *)
Definition WeekDay (days : Z) : Z := (days + 4) mod 7.

Definition isLeap (y : Z) : bool :=
  ((y mod 4 =? 0) && negb (y mod 100 =? 0)) || (y mod 400 =? 0).

Definition DaysInMonth (y m : Z) : Z :=
  if m =? 2 then (if isLeap y then 29 else 28)
  else if (m =? 4) || (m =? 6) || (m =? 9) || (m =? 11) then 30 else 31.

Definition MakeTime (h mi s ms : Z) : Z :=
  h * msPerHour + mi * msPerMinute + s * msPerSecond + ms.

Definition MakeDate (day time : Z) : Z := day * msPerDay + time.

(** *** Parsing: the Date Time String Format *)

Definition digit_of (c : ascii) : option Z :=
  let n := Z.of_N (N_of_ascii c) in
  if (48 <=? n) && (n <=? 57) then Some (n - 48) else None.

(** Exactly [n] decimal digits at the head of [s]. *)
Fixpoint digits (n : nat) (acc : Z) (s : string) : option (Z * string) :=
  match n with
  | O => Some (acc, s)
  | S n' =>
      match s with
      | String c s' =>
          match digit_of c with
          | Some d => digits n' (10 * acc + d) s'
          | None => None
          end
      | EmptyString => None
      end
  end.

(** The rest of [s] after the character [c], when [s] starts with it. *)
Definition expect (c : ascii) (s : string) : option string :=
  match s with
  | String c' s' => if Ascii.eqb c c' then Some s' else None
  | EmptyString => None
  end.

(** [YYYY], [YYYY-MM] or [YYYY-MM-DD]; absent fields are 1. *)
Definition parse_date_part (s : string) : option (Z * Z * Z * string) :=
  '(y, s1) ← digits 4 0 s;
  match expect "-" s1 with
  | None => Some (y, 1, 1, s1)
  | Some s2 =>
      '(m, s3) ← digits 2 0 s2;
      match expect "-" s3 with
      | None => Some (y, m, 1, s3)
      | Some s4 => '(d, s5) ← digits 2 0 s4; Some (y, m, d, s5)
      end
  end.

(** [HH:mm], [HH:mm:ss] or [HH:mm:ss.sss] after the [T]; absent fields are 0. *)
Definition parse_time_part (s : string) : option (Z * Z * Z * Z * string) :=
  '(h, s1) ← digits 2 0 s;
  s2 ← expect ":" s1;
  '(mi, s3) ← digits 2 0 s2;
  match expect ":" s3 with
  | None => Some (h, mi, 0, 0, s3)
  | Some s4 =>
      '(sec, s5) ← digits 2 0 s4;
      match expect "." s5 with
      | None => Some (h, mi, sec, 0, s5)
      | Some s6 => '(ms, s7) ← digits 3 0 s6; Some (h, mi, sec, ms, s7)
      end
  end.

(** The UTC offset suffix: absent ([None], local time), [Z], or [+HH:mm] /
    [-HH:mm]; the value is the offset in milliseconds. *)
Definition parse_offset (s : string) : option (option Z) :=
  match s with
  | EmptyString => Some None
  | String c s' =>
      if Ascii.eqb c "Z" then (if String.eqb s' EmptyString then Some (Some 0) else None)
      else if Ascii.eqb c "+" || Ascii.eqb c "-" then
        '(h, s1) ← digits 2 0 s';
        s2 ← expect ":" s1;
        '(mi, s3) ← digits 2 0 s2;
        if String.eqb s3 EmptyString && (h <=? 23) && (mi <=? 59) then
          let off := h * msPerHour + mi * msPerMinute in
          Some (Some (if Ascii.eqb c "-" then - off else off))
        else None
      else None
  end.

Definition valid_date (y m d : Z) : bool :=
  (1 <=? m) && (m <=? 12) && (1 <=? d) && (d <=? DaysInMonth y m).

Definition valid_time (h mi s ms : Z) : bool :=
  ((h <=? 23) && (mi <=? 59) && (s <=? 59))
  || ((h =? 24) && (mi =? 0) && (s =? 0) && (ms =? 0)).

(** [Date.parse]: the time value of a string in the Date Time String Format,
    [None] standing for [NaN].  A date-only form is UTC, a date-time form
    without offset is local time.  Strings outside the format (for which
    ECMAScript leaves the result to the engine) are taken as [NaN]. *)
Definition Date_parse `{TimeZone} (s : string) : option Z :=
  '(y, m, d, s1) ← parse_date_part s;
  if negb (valid_date y m d) then None else
  match s1 with
  | EmptyString => Some (MakeDate (MakeDay y m d) 0)
  | String c s2 =>
      if negb (Ascii.eqb c "T") then None else
      '(h, mi, sec, ms, s3) ← parse_time_part s2;
      if negb (valid_time h mi sec ms) then None else
      off ← parse_offset s3;
      let t := MakeDate (MakeDay y m d) (MakeTime h mi sec ms) in
      match off with
      | None => Some (UTC t)
      | Some o => Some (t - o)
      end
  end.

(** A [Date] object is its time value; [None] is the Invalid Date. *)
Definition Date := option Z.

(** [new Date(s)] for a string argument. *)
Definition new_Date `{TimeZone} (s : string) : Date := Date_parse s.

(** [d.getTime()], [None] for [NaN]. *)
Definition getTime (d : Date) : option Z := d.

(** *** Printing: [toDateString] *)

Definition digit_char (n : Z) : ascii := ascii_of_N (Z.to_N (48 + n mod 10)).

(** The decimal digits of [n >= 0], most significant first, at least one. *)
Fixpoint decimal_fuel (fuel : nat) (n : Z) (acc : string) : string :=
  match fuel with
  | O => acc
  | S f =>
      let acc' := String (digit_char n) acc in
      if n <? 10 then acc' else decimal_fuel f (n / 10) acc'
  end.

Definition decimal (n : Z) : string := decimal_fuel (S (Z.to_nat (Z.log2 n))) n EmptyString.

Fixpoint pad_left (width : nat) (s : string) : string :=
  if (String.length s <? width)%nat
  then match width with
       | O => s
       | S w => String "0" (pad_left w s)
       end
  else s.

Definition weekday_name (w : Z) : string :=
  if w =? 0 then "Sun" else if w =? 1 then "Mon" else if w =? 2 then "Tue"
  else if w =? 3 then "Wed" else if w =? 4 then "Thu" else if w =? 5 then "Fri"
  else "Sat".

Definition month_name (m : Z) : string :=
  if m =? 1 then "Jan" else if m =? 2 then "Feb" else if m =? 3 then "Mar"
  else if m =? 4 then "Apr" else if m =? 5 then "May" else if m =? 6 then "Jun"
  else if m =? 7 then "Jul" else if m =? 8 then "Aug" else if m =? 9 then "Sep"
  else if m =? 10 then "Oct" else if m =? 11 then "Nov" else "Dec".

(** The year as [DateString] prints it: sign for a negative year, at least
    four digits. *)
Definition year_string (y : Z) : string :=
  String.append (if y <? 0 then "-" else EmptyString) (pad_left 4 (decimal (Z.abs y))).

(** [DateString(tv)] for a local day number: [Www Mmm DD YYYY]. *)
Definition DateString (day : Z) : string :=
  let '(y, m, d) := civil day in
  (weekday_name (WeekDay day) ++ " " ++ month_name m ++ " "
   ++ pad_left 2 (decimal d) ++ " " ++ year_string y)%string.

(** The local calendar day of a time value. *)
Definition localDay `{TimeZone} (t : Z) : Z := Day (LocalTime t).

(** [d.toDateString()]. *)
Definition toDateString `{TimeZone} (d : Date) : string :=
  match d with
  | None => "Invalid Date"
  | Some t => DateString (localDay t)
  end.

(** [d.setHours(0,0,0,0)]: local midnight of the day of [t]. *)
Definition setHours0 `{TimeZone} (t : Z) : Z := UTC (MakeDate (localDay t) 0).

(** [new Date(year, monthIndex, day)]: local midnight of a civil date, the
    month counted from 0 and overflowing into the years, the day counted
    from the first of the month (day 0 is the last day of the month before). *)
Definition MakeDay_js (y monthIndex d : Z) : Z :=
  MakeDay (y + monthIndex / 12) (monthIndex mod 12 + 1) 1 + d - 1.

Definition new_Date_ymd `{TimeZone} (y monthIndex d : Z) : Z :=
  UTC (MakeDate (MakeDay_js y monthIndex d) 0).

(** The local-time getters of a valid date. *)
Definition getFullYear `{TimeZone} (t : Z) : Z := (civil (localDay t)).1.1.
Definition getMonth `{TimeZone} (t : Z) : Z := (civil (localDay t)).1.2 - 1.
Definition getDate `{TimeZone} (t : Z) : Z := (civil (localDay t)).2.
Definition getDay `{TimeZone} (t : Z) : Z := WeekDay (localDay t).

(** Numbers that may be [NaN]: subtraction and [<]. *)
Definition num_sub (a b : option Z) : option Z :=
  match a, b with
  | Some x, Some y => Some (x - y)
  | _, _ => None
  end.

Definition num_lt (a b : option Z) : bool :=
  match a, b with
  | Some x, Some y => x <? y
  | _, _ => false
  end.

(** ** The platform: [Array.prototype.sort]

    ECMAScript requires the sort to be stable and treats a [NaN] result of
    the comparator as [+0].  For a comparator that orders the elements
    consistently the result is thereby fixed; it is computed here by a stable
    insertion sort. *)
Section ArraySort.
Context {A : Type} (comparefn : A → A → option Z).

(** [comparefn(a, b) > 0]: [a] sorts after [b]. *)
Definition sorts_after (a b : A) : bool :=
  match comparefn a b with
  | Some v => 0 <? v
  | None => false
  end.

Fixpoint sort_insert (x : A) (l : list A) : list A :=
  match l with
  | [] => [x]
  | y :: l' => if sorts_after x y then y :: sort_insert x l' else x :: y :: l'
  end.

Definition Array_sort (l : list A) : list A := foldr sort_insert [] l.
End ArraySort.

(** ** The data model ([../types]) *)

(** Modelled from the spec: the enumerations and records of [../types],
    which the pages import; constructors and fields carry the names the
    pages use, the values of [AppointmentType] follow the five the spec
    declares (Hearing, Meeting, OralArgument, InternalDeadline, Other). *)
Inductive AppointmentType :=
  AUDIENCIA | REUNIAO | SUSTENTACAO_ORAL | PRAZO_INTERNO | OUTRO.

Inductive TaskStatus := PENDENTE | FAZENDO | CONCLUIDA.

(** The literals ['Prazo'] and ['Tarefa'] of a task's [type]. *)
Inductive TaskType := Prazo | Tarefa.

#[global] Instance AppointmentType_eq_dec : EqDecision AppointmentType.
Proof. solve_decision. Defined.
#[global] Instance TaskStatus_eq_dec : EqDecision TaskStatus.
Proof. solve_decision. Defined.
#[global] Instance TaskType_eq_dec : EqDecision TaskType.
Proof. solve_decision. Defined.

Module Appointment.
Record t := mk {
  id : string;
  title : string;
  date : string;
  appointmentType : AppointmentType;
}.
End Appointment.

Module TaskUpdate.
Record t := mk {
  id : string;
  timestamp : string;
  text : string;
  attachmentName : option string;
  attachmentMimeType : option string;
  attachmentData : option string;
}.
End TaskUpdate.

Module Task.
Record t := mk {
  id : string;
  title : string;
  dueDate : string;
  assignedTo : string;
  type : TaskType;
  status : TaskStatus;
  caseId : option string;
  updates : list TaskUpdate.t;
  isDeleted : bool;
  isArchived : bool;
  deletedAt : option string;
  archivedAt : option string;
}.
End Task.

Module Case.
Record t := mk {
  id : string;
  name : string;
  clientId : string;
  isDeleted : bool;
  isArchived : bool;
  deletedAt : option string;
  archivedAt : option string;
}.
End Case.

Module Settings.
Record t := mk { googleCalendarConnected : bool }.
End Settings.

(** ** The lifecycle views ([TasksPage], [CasesPage]) *)

(** What the pages read of an entity to place it in a view, and the flag
    updates of the transitions; the laws say that each update writes its own
    flag and leaves the other alone. *)
Class Lifecycle (E : Type) := {
  isDeleted : E → bool;
  isArchived : E → bool;
  setDeleted : bool → option string → E → E;
  setArchived : bool → option string → E → E;
  isDeleted_setDeleted b ts e : isDeleted (setDeleted b ts e) = b;
  isArchived_setDeleted b ts e : isArchived (setDeleted b ts e) = isArchived e;
  isDeleted_setArchived b ts e : isDeleted (setArchived b ts e) = isDeleted e;
  isArchived_setArchived b ts e : isArchived (setArchived b ts e) = b;
}.

#[global, refine] Instance Task_Lifecycle : Lifecycle Task.t := {|
  isDeleted := Task.isDeleted;
  isArchived := Task.isArchived;
  setDeleted b ts e :=
    Task.mk (Task.id e) (Task.title e) (Task.dueDate e) (Task.assignedTo e)
      (Task.type e) (Task.status e) (Task.caseId e) (Task.updates e)
      b (Task.isArchived e) ts (Task.archivedAt e);
  setArchived b ts e :=
    Task.mk (Task.id e) (Task.title e) (Task.dueDate e) (Task.assignedTo e)
      (Task.type e) (Task.status e) (Task.caseId e) (Task.updates e)
      (Task.isDeleted e) b (Task.deletedAt e) ts;
|}.
Proof. all: reflexivity. Defined.

#[global, refine] Instance Case_Lifecycle : Lifecycle Case.t := {|
  isDeleted := Case.isDeleted;
  isArchived := Case.isArchived;
  setDeleted b ts e :=
    Case.mk (Case.id e) (Case.name e) (Case.clientId e)
      b (Case.isArchived e) ts (Case.archivedAt e);
  setArchived b ts e :=
    Case.mk (Case.id e) (Case.name e) (Case.clientId e)
      (Case.isDeleted e) b (Case.deletedAt e) ts;
|}.
Proof. all: reflexivity. Defined.

Section Views.
Context {E : Type} `{Lifecycle E}.

(** The three predicates of the filters, as the pages write them. *)
Definition is_active (e : E) : bool := negb (isDeleted e) && negb (isArchived e).
Definition is_trashed (e : E) : bool := isDeleted e.
Definition is_archived (e : E) : bool := negb (isDeleted e) && isArchived e.

Definition activeOf (l : list E) : list E := List.filter is_active l.
Definition trashedOf (l : list E) : list E := List.filter is_trashed l.
Definition archivedOf (l : list E) : list E := List.filter is_archived l.
End Views.

(** [TasksPage]: [activeTasks], [trashedTasks], [archivedTasks]. *)
Definition activeTasks (tasks : list Task.t) : list Task.t := activeOf tasks.
Definition trashedTasks (tasks : list Task.t) : list Task.t := trashedOf tasks.
Definition archivedTasks (tasks : list Task.t) : list Task.t := archivedOf tasks.

(** [CasesPage]: [activeCases], [trashedCases], [archivedCases]. *)
Definition activeCases (cases : list Case.t) : list Case.t := activeOf cases.
Definition trashedCases (cases : list Case.t) : list Case.t := trashedOf cases.
Definition archivedCases (cases : list Case.t) : list Case.t := archivedOf cases.

(** The route parameter [view]. *)
Inductive ViewParam := lixeira | arquivados.

Definition tasksToDisplaySource (view : option ViewParam) (tasks : list Task.t) :=
  match view with
  | Some lixeira => trashedTasks tasks
  | Some arquivados => archivedTasks tasks
  | None => activeTasks tasks
  end.


(** ** The agenda ([AgendaPage]) *)

(** [AppointmentType | 'Prazo' | 'Tarefa'] *)
Inductive EventType :=
| ofAppointment (a : AppointmentType)
| ofTask (k : TaskType).

Module UnifiedEvent.
Record t := mk {
  id : string;
  title : string;
  date : string;
  type : EventType;
  original : Appointment.t + Task.t;
}.
End UnifiedEvent.

Definition eventFromAppointment (app : Appointment.t) : UnifiedEvent.t :=
  {| UnifiedEvent.id := Appointment.id app;
     UnifiedEvent.title := Appointment.title app;
     UnifiedEvent.date := Appointment.date app;
     UnifiedEvent.type := ofAppointment (Appointment.appointmentType app);
     UnifiedEvent.original := inl app |}.

Definition eventFromTask (task : Task.t) : UnifiedEvent.t :=
  {| UnifiedEvent.id := Task.id task;
     UnifiedEvent.title := Task.title task;
     UnifiedEvent.date := Task.dueDate task;
     UnifiedEvent.type := ofTask (Task.type task);
     UnifiedEvent.original := inr task |}.

(** [t.status !== TaskStatus.CONCLUIDA] *)
Definition notConcluded (t : Task.t) : bool :=
  if decide (Task.status t = CONCLUIDA) then false else true.

Definition unifiedEvents (appointments : list Appointment.t) (tasks : list Task.t)
  : list UnifiedEvent.t :=
  let eventsFromAppointments := map eventFromAppointment appointments in
  let eventsFromTasks := map eventFromTask (List.filter notConcluded tasks) in
  eventsFromAppointments ++ eventsFromTasks.

Section Agenda.
Context `{TimeZone}.

(** [new Date(e.date).getTime()] *)
Definition eventTime (e : UnifiedEvent.t) : option Z :=
  getTime (new_Date (UnifiedEvent.date e)).

(** The comparator of the sort within a day. *)
Definition byEventTime (a b : UnifiedEvent.t) : option Z :=
  num_sub (eventTime a) (eventTime b).

(** [new Date(event.date).toDateString()] *)
Definition eventDate (event : UnifiedEvent.t) : string :=
  toDateString (new_Date (UnifiedEvent.date event)).

(** One round of the [reduce]: create the bucket if there is none, push
    the event, sort the bucket. *)
Definition eventsByDate_step (acc : gmap string (list UnifiedEvent.t))
    (event : UnifiedEvent.t) : gmap string (list UnifiedEvent.t) :=
  let k := eventDate event in
  let acc1 := match acc !! k with
              | None => <[k := []]> acc
              | Some _ => acc
              end in
  let acc2 := alter (λ bucket, bucket ++ [event]) k acc1 in
  alter (Array_sort byEventTime) k acc2.

Definition eventsByDate (events : list UnifiedEvent.t)
  : gmap string (list UnifiedEvent.t) :=
  foldl eventsByDate_step ∅ events.

(** [daysInMonth]: a null for every week day before the first of the
    month, then the days of the month. *)
Definition daysInMonth (currentDate : Z) : list (option Z) :=
  let firstDayOfMonth :=
    new_Date_ymd (getFullYear currentDate) (getMonth currentDate) 1 in
  let lastDayOfMonth :=
    new_Date_ymd (getFullYear currentDate) (getMonth currentDate + 1) 0 in
  let startDay := getDay firstDayOfMonth in
  replicate (Z.to_nat startDay) None
  ++ map (λ i, Some (new_Date_ymd (getFullYear currentDate)
                       (getMonth currentDate) (Z.of_nat i)))
       (seq 1 (Z.to_nat (getDate lastDayOfMonth))).
End Agenda.

Definition getEventColor (type : EventType) : string :=
  match type with
  | ofAppointment AUDIENCIA => "bg-red-100 border-red-400 text-red-800"
  | ofTask Prazo => "bg-yellow-100 border-yellow-400 text-yellow-800"
  | ofAppointment REUNIAO => "bg-blue-100 border-blue-400 text-blue-800"
  | ofAppointment SUSTENTACAO_ORAL => "bg-purple-100 border-purple-400 text-purple-800"
  | ofAppointment PRAZO_INTERNO => "bg-orange-100 border-orange-400 text-orange-800"
  | ofTask Tarefa => "bg-teal-100 border-teal-400 text-teal-800"
  | _ => "bg-slate-100 border-slate-400 text-slate-800"
  end.

(** Modelled from the spec: [updateSettings] of [useAppData], which merges
    the given fields into the settings record; the record has the one field. *)
Definition updateSettings (googleCalendarConnected : option bool)
    (settings : Settings.t) : Settings.t :=
  match googleCalendarConnected with
  | Some b => {| Settings.googleCalendarConnected := b |}
  | None => settings
  end.

(** [handleConnectGoogleCalendar], once its timer has fired; [random] is
    the draw of [Math.random()], a double in [0, 1), given by the integer
    [random * 2^53].  The double [0.3] is [5404319552844595 / 2^54]. *)
Definition handleConnectGoogleCalendar (random : Z) (settings : Settings.t)
  : Settings.t :=
  let success := 5404319552844595 <? 2 * random in
  if success then updateSettings (Some true) settings
  else updateSettings (Some false) settings.

Definition handleDisconnectGoogleCalendar (settings : Settings.t) : Settings.t :=
  updateSettings (Some false) settings.

(** What the page renders.  An event shows as a chip with its key, colour
    classes, title and type. *)
Record EventChip := {
  chipKey : string;
  chipClassName : string;
  chipTitle : string;
  chipType : EventType;
}.

Inductive DayCell :=
| BlankCell
| DayOfMonth (date : Z) (chips : list EventChip).

Inductive AgendaView :=
| SyncPrompt
| CalendarView (cells : list DayCell).

Section AgendaPage.
Context `{TimeZone}.

Definition renderChip (event : UnifiedEvent.t) : EventChip :=
  {| chipKey := UnifiedEvent.id event;
     chipClassName := getEventColor (UnifiedEvent.type event);
     chipTitle := UnifiedEvent.title event;
     chipType := UnifiedEvent.type event |}.

(** [eventsByDate[day.toDateString()]?.map(...)] *)
Definition renderDay (index : gmap string (list UnifiedEvent.t))
    (day : option Z) : DayCell :=
  match day with
  | None => BlankCell
  | Some d =>
      DayOfMonth (getDate d)
        (match index !! toDateString (Some d) with
         | Some events => map renderChip events
         | None => []
         end)
  end.

Definition AgendaPage (settings : Settings.t) (currentDate : Z)
    (appointments : list Appointment.t) (tasks : list Task.t) : AgendaView :=
  let index := eventsByDate (unifiedEvents appointments tasks) in
  if negb (Settings.googleCalendarConnected settings) then SyncPrompt
  else CalendarView (map (renderDay index) (daysInMonth currentDate)).
End AgendaPage.

(** ** The tasks page ([TasksPage]) *)

Section TasksPage.
Context `{TimeZone}.

(** [new Date(u.timestamp).getTime()] *)
Definition updateTime (u : TaskUpdate.t) : option Z :=
  getTime (new_Date (TaskUpdate.timestamp u)).

(** The comparator of the update thread. *)
Definition byTimestamp (a b : TaskUpdate.t) : option Z :=
  num_sub (updateTime a) (updateTime b).

(** The updates as the detail panel lists them:
    [selectedTask.updates.sort(...)]. *)
Definition displayedUpdates (selectedTask : Task.t) : list TaskUpdate.t :=
  Array_sort byTimestamp (Task.updates selectedTask).

(** [isOverdue] of a row of the task list; [now] is the time value of
    [new Date()]. *)
Definition isOverdue (now : Z) (task : Task.t) : bool :=
  let deadline := new_Date (Task.dueDate task) in
  let today := setHours0 now in
  num_lt (getTime deadline) (Some today) && notConcluded task.
End TasksPage.

(** A [File] of the file input; [dataURL] is what a [FileReader] delivers
    for it. *)
Module File.
Record t := mk {
  name : string;
  size : Z;
  type : string;
  dataURL : string;
}.
End File.

(** The argument of [addTaskUpdate]. *)
Module UpdateDraft.
Record t := mk {
  text : string;
  attachmentName : option string;
  attachmentMimeType : option string;
  attachmentData : option string;
}.
End UpdateDraft.

(** What a handler does to the world around it, in the order it does it. *)
Inductive Effect :=
| toast_error (message : string)
| toast_success (message : string)
| readAsDataURL (file : File.t)
| set_input_value (value : string)
| call_addTaskUpdate (taskId : string) (update : UpdateDraft.t).

(** The double quote character, as a string. *)
Definition quote : string := String (ascii_of_nat 34) EmptyString.

Definition attachmentLimit : Z := 5 * 1024 * 1024.

(** [handleFileChange]; [files] is [e.target.files] (empty for none).  The
    [onloadend] callback runs when the read is over, after the handler has
    returned. *)
Definition handleFileChange (files : list File.t) (selectedTask : option Task.t)
  : list Effect :=
  match files, selectedTask with
  | file :: _, Some task =>
      if attachmentLimit <? File.size file then
        [toast_error "O arquivo é muito grande (máx 5MB)."]
      else
        [readAsDataURL file;
         set_input_value EmptyString;
         call_addTaskUpdate (Task.id task)
           {| UpdateDraft.text := String.append "Anexo: " (File.name file);
              UpdateDraft.attachmentName := Some (File.name file);
              UpdateDraft.attachmentMimeType := Some (File.type file);
              UpdateDraft.attachmentData := Some (File.dataURL file) |};
         toast_success
           (String.append "Arquivo " (String.append quote
              (String.append (File.name file) (String.append quote " anexado."))))]
  | _, _ => [set_input_value EmptyString]
  end.

(** The world a handler acts on: the data of [useAppData] behind
    [addTaskUpdate], the toasts shown, the files read and the value of the
    file input. *)
Section World.
Context {Store : Type}.
(** [addTaskUpdate] of [useAppData]. *)
Context (addTaskUpdate : string → UpdateDraft.t → Store → Store).

Record World := {
  store : Store;
  toasts : list string;
  filesRead : list File.t;
  inputValue : string;
}.

Definition perform (w : World) (e : Effect) : World :=
  match e with
  | toast_error m | toast_success m =>
      {| store := store w; toasts := toasts w ++ [m];
         filesRead := filesRead w; inputValue := inputValue w |}
  | readAsDataURL f =>
      {| store := store w; toasts := toasts w;
         filesRead := filesRead w ++ [f]; inputValue := inputValue w |}
  | set_input_value v =>
      {| store := store w; toasts := toasts w;
         filesRead := filesRead w; inputValue := v |}
  | call_addTaskUpdate taskId u =>
      {| store := addTaskUpdate taskId u (store w); toasts := toasts w;
         filesRead := filesRead w; inputValue := inputValue w |}
  end.

Definition run (effects : list Effect) (w : World) : World :=
  foldl perform w effects.
End World.

(** ** The lifecycle store ([useAppData]) *)

Inductive LifecycleError := PreconditionViolation.

Inductive Result (A : Type) :=
| Ok (a : A)
| Err (e : LifecycleError).
Arguments Ok {A} a.
Arguments Err {A} e.

Definition and_then {A B : Type} (r : Result A) (k : A → Result B) : Result B :=
  match r with
  | Ok a => k a
  | Err e => Err e
  end.

Notation "r >>= k" := (and_then r k) (at level 50, left associativity).

Section LifecycleStore.
Context {E : Type} `{Lifecycle E}.

(** Modelled from the spec: the transitions of the lifecycle store
    ([softDeleteTask], [restoreTask], [toggleTaskArchive],
    [permanentlyDeleteTask] and their [Case] twins in [useAppData]), section
    4.1; the store maps an id to its entity.  A transition finds the entity,
    checks its state and writes the entity back. *)
Definition transition (pre : E → bool) (f : E → E) (id : string)
    (entities : gmap string E) : Result (gmap string E) :=
  match entities !! id with
  | Some e => if pre e then Ok (<[id := f e]> entities)
              else Err PreconditionViolation
  | None => Err PreconditionViolation
  end.

(** Modelled from the spec: [softDelete] requires [isDeleted == false],
    sets the flag and stamps [deletedAt]. *)
Definition softDelete (now : string) :=
  transition (λ e, negb (isDeleted e)) (setDeleted true (Some now)).

(** Modelled from the spec: [restore] requires [isDeleted == true], clears
    the flag and [deletedAt], and leaves [isArchived] as it is. *)
Definition restore :=
  transition (λ e, isDeleted e) (setDeleted false None).

(** Modelled from the spec: [toggleArchive] requires [isDeleted == false],
    flips [isArchived] and stamps or clears [archivedAt]. *)
Definition toggleArchive (now : string) :=
  transition (λ e, negb (isDeleted e))
    (λ e, if isArchived e then setArchived false None e
          else setArchived true (Some now) e).

(** Modelled from the spec: [permanentlyDelete] requires
    [isDeleted == true] and removes the entity. *)
Definition permanentlyDelete (id : string) (entities : gmap string E)
  : Result (gmap string E) :=
  match entities !! id with
  | Some e => if isDeleted e then Ok (delete id entities)
              else Err PreconditionViolation
  | None => Err PreconditionViolation
  end.
End LifecycleStore.

(** The three visibility states. *)
Inductive Visibility := Active | Archived | Trashed.

Definition visibility {E : Type} `{Lifecycle E} (e : E) : Visibility :=
  if isDeleted e then Trashed else if isArchived e then Archived else Active.

(** ** The agenda page: navigation, clicks *)





(** The state of the appointment form of the agenda. *)
Module AgendaState.
Record t := mk {
  isFormModalOpen : bool;
  selectedAppointment : option Appointment.t;
  selectedDate : option Date;
}.
End AgendaState.

Definition handleAddAppointment (date : Date) (st : AgendaState.t) : AgendaState.t :=
  {| AgendaState.selectedDate := Some date;
     AgendaState.selectedAppointment := None;
     AgendaState.isFormModalOpen := true |}.

(** [handleEventClick]: the new state and the toasts shown.  An original
    with an [appointmentType] is an appointment. *)
Definition handleEventClick `{TimeZone} (event : UnifiedEvent.t) (st : AgendaState.t)
  : AgendaState.t * list string :=
  match UnifiedEvent.original event with
  | inl appointment =>
      ({| AgendaState.selectedDate := Some (new_Date (Appointment.date appointment));
          AgendaState.selectedAppointment := Some appointment;
          AgendaState.isFormModalOpen := true |}, [])
  | inr _ =>
      (st, [String.append "Para editar a tarefa "
              (String.append quote
                 (String.append (UnifiedEvent.title event)
                    (String.append quote
                       ", vá para a página de Tarefas e Prazos.")))])
  end.

(** The title of the form. *)
Definition formTitle (st : AgendaState.t) : string :=
  match AgendaState.selectedAppointment st with
  | Some _ => "Editar Compromisso"
  | None => "Novo Compromisso"
  end.

(** ** The tasks page: the list, the handlers *)

(** [TaskStatus | 'all'] *)
Inductive StatusFilter := showAll | only (status : TaskStatus).

Section TaskList.
Context `{TimeZone}.

(** [new Date(t.dueDate).getTime()] *)
Definition dueTime (t : Task.t) : option Z := getTime (new_Date (Task.dueDate t)).

Definition byDueDate (a b : Task.t) : option Z := num_sub (dueTime a) (dueTime b).

(** [filteredTasks]: a copy of the view's tasks sorted by due date; the
    status filter applies to the default view only. *)
Definition filteredTasks (view : option ViewParam) (filter : StatusFilter)
    (tasks : list Task.t) : list Task.t :=
  let sorted := Array_sort byDueDate (tasksToDisplaySource view tasks) in
  match view, filter with
  | Some _, _ => sorted
  | None, showAll => sorted
  | None, only f => List.filter (λ t, bool_decide (Task.status t = f)) sorted
  end.
End TaskList.

(** The white space and line terminators of ECMAScript, on the UTF-8 bytes
    of a string: the rest of [s] after one of them at its head.  They are
    U+0009 to U+000D, U+0020, U+00A0, U+1680, U+2000 to U+200A, U+2028,
    U+2029, U+202F, U+205F, U+3000 and U+FEFF. *)
Definition skip_space (s : string) : option string :=
  match s with
  | EmptyString => None
  | String c1 r1 =>
      let b1 := Z.of_N (N_of_ascii c1) in
      if ((9 <=? b1) && (b1 <=? 13)) || (b1 =? 32) then Some r1 else
      match r1 with
      | EmptyString => None
      | String c2 r2 =>
          let b2 := Z.of_N (N_of_ascii c2) in
          if (b1 =? 194) && (b2 =? 160) then Some r2 else
          match r2 with
          | EmptyString => None
          | String c3 r3 =>
              let b3 := Z.of_N (N_of_ascii c3) in
              if ((b1 =? 225) && (b2 =? 154) && (b3 =? 128))
                 || ((b1 =? 226) && (b2 =? 128)
                     && (((128 <=? b3) && (b3 <=? 138))
                         || (b3 =? 168) || (b3 =? 169) || (b3 =? 175)))
                 || ((b1 =? 226) && (b2 =? 129) && (b3 =? 159))
                 || ((b1 =? 227) && (b2 =? 128) && (b3 =? 128))
                 || ((b1 =? 239) && (b2 =? 187) && (b3 =? 191))
              then Some r3 else None
          end
      end
  end.

Fixpoint trimStart_fuel (fuel : nat) (s : string) : string :=
  match fuel with
  | O => s
  | S f =>
      match skip_space s with
      | Some r => trimStart_fuel f r
      | None => s
      end
  end.

(** [s.trimStart()] *)
Definition trimStart (s : string) : string := trimStart_fuel (String.length s) s.

(** Nothing but white space. *)
Definition blank (s : string) : bool := String.eqb (trimStart s) EmptyString.

(** [s.trimEnd()] *)
Fixpoint trimEnd (s : string) : string :=
  match s with
  | EmptyString => EmptyString
  | String c r => if blank s then EmptyString else String c (trimEnd r)
  end.

(** [s.trim()] *)
Definition trim (s : string) : string := trimEnd (trimStart s).

(** [handleAddUpdate]: what it does and the new content of the text area. *)
Definition handleAddUpdate (selectedTask : option Task.t) (newUpdateText : string)
  : list Effect * string :=
  match selectedTask with
  | None => ([], newUpdateText)
  | Some task =>
      if String.eqb (trim newUpdateText) EmptyString then ([], newUpdateText)
      else
        ([call_addTaskUpdate (Task.id task)
            {| UpdateDraft.text := newUpdateText;
               UpdateDraft.attachmentName := None;
               UpdateDraft.attachmentMimeType := None;
               UpdateDraft.attachmentData := None |};
          toast_success "Atualização adicionada!"],
         EmptyString)
  end.

(** The calls to the store of [useAppData] that the list pages make. *)
Inductive StoreCall :=
| softDeleteTask (id : string)
| softDeleteCase (id : string)
| permanentlyDeleteCase (id : string)
| restoreCase (id : string)
| toggleCaseArchive (id : string).

(** What a handler of the list pages does, in order. *)
Inductive Step :=
| store_call (call : StoreCall)
| toast_shown (message : string).

(** [handleSoftDelete] of the tasks page; [confirm] is the answer of
    [window.confirm] to a question.  The steps done and the new selection. *)
Definition handleSoftDeleteTask (confirm : string → bool) (taskId : string)
    (selectedTask : option Task.t) : list Step * option Task.t :=
  if confirm "Tem certeza que deseja mover esta tarefa para a lixeira?" then
    ([store_call (softDeleteTask taskId);
      toast_shown "Tarefa movida para a lixeira."],
     match selectedTask with
     | Some t => if String.eqb (Task.id t) taskId then None else selectedTask
     | None => selectedTask
     end)
  else ([], selectedTask).

(** ** The cases page: the cards, the handlers *)

Module Client.
Record t := mk {
  id : string;
  name : string;
}.
End Client.

(** The properties a [CaseCard] receives. *)
Module CaseCard.
Record t := mk {
  caseData : Case.t;
  client : option Client.t;
  tasks : list Task.t;
  isArchivedView : bool;
}.
End CaseCard.



Module CasesState.
Record t := mk {
  isFormModalOpen : bool;
  isDetailsModalOpen : bool;
  selectedCase : option Case.t;
}.
End CasesState.

(** [if (selectedCase?.id === caseId) setDetailsModalOpen(false)] *)
Definition closeDetailsOf (caseId : string) (st : CasesState.t) : CasesState.t :=
  match CasesState.selectedCase st with
  | Some c =>
      if String.eqb (Case.id c) caseId then
        {| CasesState.isFormModalOpen := CasesState.isFormModalOpen st;
           CasesState.isDetailsModalOpen := false;
           CasesState.selectedCase := CasesState.selectedCase st |}
      else st
  | None => st
  end.

Definition handleSoftDeleteCase (confirm : string → bool) (caseId : string)
    (st : CasesState.t) : list Step * CasesState.t :=
  if confirm "Tem certeza que deseja mover este processo para a lixeira?" then
    ([store_call (softDeleteCase caseId);
      toast_shown "Processo movido para a lixeira!"],
     closeDetailsOf caseId st)
  else ([], st).

Definition handlePermanentDelete (confirm : string → bool) (caseId : string)
    (st : CasesState.t) : list Step * CasesState.t :=
  if confirm "Esta ação é irreversível. Deseja excluir permanentemente este processo?"
  then
    ([store_call (permanentlyDeleteCase caseId);
      toast_shown "Processo excluído permanentemente."],
     closeDetailsOf caseId st)
  else ([], st).

Definition handleRestore (caseId : string) : list Step :=
  [store_call (restoreCase caseId); toast_shown "Processo restaurado!"].

Definition handleToggleArchive (caseId : string) : list Step :=
  [store_call (toggleCaseArchive caseId);
   toast_shown "Status de arquivamento do processo alterado!"].

(** ** Vocabulary of the statements *)

Section Keys.
Context {A : Type} (key : A → option Z).

(** The elements whose sort key is [v]. *)
Definition has_key (v : option Z) (a : A) : bool := bool_decide (key a = v).

(** [a] may stand before [b]: both keys are numbers in ascending order, or
    neither is a number. *)
Definition key_le (a b : A) : Prop :=
  match key a, key b with
  | Some x, Some y => x ≤ y
  | None, None => True
  | _, _ => False
  end.

(** Both keys are numbers, in ascending order. *)
Definition time_le (a b : A) : Prop :=
  ∃ x y, key a = Some x ∧ key b = Some y ∧ x ≤ y.

(** All keys are numbers, or none is: on such a list the comparator
    [key a - key b] orders consistently. *)
Definition homogeneous (l : list A) : Prop :=
  Forall (λ a, is_Some (key a)) l ∨ Forall (λ a, key a = None) l.
End Keys.

(** The events of the day printed as [k]. *)
Definition on_day `{TimeZone} (k : string) (e : UnifiedEvent.t) : bool :=
  bool_decide (eventDate e = k).

(** Where an event comes from. *)
Definition fromAppointment (e : UnifiedEvent.t) : Prop :=
  match UnifiedEvent.original e with inl _ => True | inr _ => False end.

Definition fromTask (e : UnifiedEvent.t) : Prop :=
  match UnifiedEvent.original e with inl _ => False | inr _ => True end.

(** Reading back what [decimal] and [year_string] print. *)
Definition digit_val (c : ascii) : Z := Z.of_N (N_of_ascii c) - 48.

Fixpoint value_from (v : Z) (s : string) : Z :=
  match s with
  | EmptyString => v
  | String c s' => value_from (10 * v + digit_val c) s'
  end.

Definition year_of_string (s : string) : Z :=
  match s with
  | String c r => if Ascii.eqb c "-" then - value_from 0 r else value_from 0 s
  | EmptyString => 0
  end.

(** Exactly one of three holds. *)
Definition exactly_one (P Q R : Prop) : Prop :=
  (P ∧ ¬ Q ∧ ¬ R) ∨ (¬ P ∧ Q ∧ ¬ R) ∨ (¬ P ∧ ¬ Q ∧ R).

(** The local calendar day of a task's due date, if it is a date. *)
Definition dueDay `{TimeZone} (task : Task.t) : option Z :=
  localDay <$> getTime (new_Date (Task.dueDate task)).

(** The colour classes of [getEventColor]. *)
Definition red : string := "bg-red-100 border-red-400 text-red-800".
Definition yellow : string := "bg-yellow-100 border-yellow-400 text-yellow-800".
Definition blue : string := "bg-blue-100 border-blue-400 text-blue-800".
Definition purple : string := "bg-purple-100 border-purple-400 text-purple-800".
Definition orange : string := "bg-orange-100 border-orange-400 text-orange-800".
Definition teal : string := "bg-teal-100 border-teal-400 text-teal-800".
Definition slate : string := "bg-slate-100 border-slate-400 text-slate-800".

(** The event chips a rendered page shows. *)
Definition shownChips (view : AgendaView) : list EventChip :=
  match view with
  | SyncPrompt => []
  | CalendarView cells =>
      flat_map (λ cell, match cell with
                        | BlankCell => []
                        | DayOfMonth _ chips => chips
                        end) cells
  end.

(** The effects that read a file. *)
Definition readsFile (e : Effect) : bool :=
  match e with readAsDataURL _ => true | _ => false end.

(** The effects that store an update. *)
Definition storesUpdate (e : Effect) : bool :=
  match e with call_addTaskUpdate _ _ => true | _ => false end.









(** The month [n] months after a (year, month). *)
Definition months_after (n : nat) (ym : Z * Z) : Z * Z :=
  (ym.1 + (ym.2 - 1 + Z.of_nat n) / 12, (ym.2 - 1 + Z.of_nat n) mod 12 + 1).


(** The number of events in the buckets of an index. *)
Definition indexSize (index : gmap string (list UnifiedEvent.t)) : nat :=
  map_fold (λ _ bucket n, (length bucket + n)%nat) 0%nat index.

(** The tasks of a view, and those the status filter lets through. *)
Definition inView (view : option ViewParam) (t : Task.t) : bool :=
  match view with
  | Some lixeira => is_trashed t
  | Some arquivados => is_archived t
  | None => is_active t
  end.

Definition passesFilter (view : option ViewParam) (filter : StatusFilter) (t : Task.t)
  : bool :=
  match view, filter with
  | None, only f => bool_decide (Task.status t = f)
  | _, _ => true
  end.

(** Nothing but white space and line terminators. *)
Inductive all_space : string → Prop :=
| all_space_empty : all_space EmptyString
| all_space_skip s r : skip_space s = Some r → all_space r → all_space s.


(** ** Sample data *)

(** Brasilia time, UTC-03:00. *)
Definition Brasilia : TimeZone := -10800000.

Definition hearing : Appointment.t :=
  Appointment.mk "a1" "Audiência de instrução" "2024-03-10T09:00" AUDIENCIA.

(** A pending deadline due at the very time of [hearing]. *)
Definition filing : Task.t :=
  Task.mk "t1" "Protocolar contestação" "2024-03-10T09:00" "Ana" Prazo PENDENTE
    None [] false false None None.

Definition note (id timestamp : string) : TaskUpdate.t :=
  TaskUpdate.mk id timestamp "Andamento" None None None.

(** A task whose updates were appended within one millisecond of each
    other, the clock having stepped back after the first. *)
Definition busyTask : Task.t :=
  Task.mk "t2" "Revisar contrato" "2024-03-12T18:00" "Rui" Tarefa FAZENDO None
    [note "u1" "2024-03-10T12:00:00.001Z";
     note "u2" "2024-03-10T12:00:00.000Z";
     note "u3" "2024-03-10T12:00:00.000Z"]
    false false None None.

(** A file one byte over the limit, and one exactly at it. *)
Definition oversized : File.t :=
  File.mk "peticao.pdf" (5 * 1024 * 1024 + 1) "application/pdf"
    "data:application/pdf;base64,JVBERi0x".

Definition fitting : File.t :=
  File.mk "procuracao.pdf" (5 * 1024 * 1024) "application/pdf"
    "data:application/pdf;base64,JVBERi0x".

(** A store that keeps the calls of [addTaskUpdate] it receives. *)
Definition recordCall (taskId : string) (u : UpdateDraft.t)
    (calls : list (string * UpdateDraft.t)) : list (string * UpdateDraft.t) :=
  calls ++ [(taskId, u)].

Definition freshWorld : World :=
  {| store := @nil (string * UpdateDraft.t); toasts := [];
     filesRead := []; inputValue := "C:/fakepath/peticao.pdf" |}.



Definition notice : Task.t :=
  Task.mk "t4" "Notificar locatário" "2024-03-05T17:00" "Rui" Prazo CONCLUIDA
    (Some "c2") [] true false (Some "2024-03-01T12:00:00.000Z") None.

(** ** The sort *)

Section SortTheory.
Context {A : Type} (key : A → option Z).

Local Abbreviation cmp := (λ a b : A, num_sub (key a) (key b)).

Lemma sorts_after_spec a b :
  sorts_after cmp a b = true ↔ ∃ x y, key a = Some x ∧ key b = Some y ∧ y < x.
Proof.
  unfold sorts_after, num_sub.
  destruct (key a) as [x|], (key b) as [y|]; split.
  all: try (intros (? & ? & ? & ? & ?); simplify_eq).
  all: try discriminate.
  - intros Hlt. exists x, y. apply Z.ltb_lt in Hlt. repeat split; lia.
  - apply Z.ltb_lt. lia.
Qed.

Lemma sort_insert_has_key v x l :
  List.filter (has_key key v) (sort_insert cmp x l)
  = List.filter (has_key key v) (x :: l).
Proof.
  induction l as [|y l IH]; [done|].
  cbn [sort_insert]. destruct (sorts_after cmp x y) eqn:Hxy; [|done].
  apply sorts_after_spec in Hxy as (a & b & Ha & Hb & Hlt).
  cbn [List.filter] in *. rewrite IH.
  unfold has_key. rewrite Ha, Hb.
  do 2 case_bool_decide; simplify_eq; try done. lia.
Qed.

(** Stability: elements of equal key keep their order. *)
Lemma Array_sort_has_key v l :
  List.filter (has_key key v) (Array_sort cmp l) = List.filter (has_key key v) l.
Proof.
  induction l as [|x l IH]; [done|].
  change (Array_sort cmp (x :: l)) with (sort_insert cmp x (Array_sort cmp l)).
  rewrite sort_insert_has_key. cbn [List.filter]. by rewrite IH.
Qed.

Lemma sort_insert_perm x l : sort_insert cmp x l ≡ₚ x :: l.
Proof.
  induction l as [|y l IH]; [done|].
  cbn [sort_insert]. destruct (sorts_after cmp x y); [|done].
  rewrite IH. apply Permutation_swap.
Qed.

Lemma Array_sort_perm l : Array_sort cmp l ≡ₚ l.
Proof.
  induction l as [|x l IH]; [done|].
  change (Array_sort cmp (x :: l)) with (sort_insert cmp x (Array_sort cmp l)).
  by rewrite sort_insert_perm, IH.
Qed.

Lemma homogeneous_perm l l' : l ≡ₚ l' → homogeneous key l → homogeneous key l'.
Proof. intros Hp [Hl|Hl]; [left|right]; by rewrite <- Hp. Qed.

Lemma homogeneous_cons_inv x l : homogeneous key (x :: l) → homogeneous key l.
Proof. intros [Hl|Hl]; [left|right]; by inversion Hl. Qed.

Lemma key_le_total x y l :
  homogeneous key (x :: l) → y ∈ l → key_le key x y ∨ key_le key y x.
Proof.
  unfold key_le. intros [Hl|Hl] Hy.
  - apply Forall_cons in Hl as [[a Ha] Hl].
    rewrite Forall_forall in Hl. destruct (Hl y Hy) as [b Hb].
    rewrite Ha, Hb. lia.
  - apply Forall_cons in Hl as [Ha Hl].
    rewrite Forall_forall in Hl. rewrite Ha, (Hl y Hy). by left.
Qed.

Lemma key_le_trans x y z : key_le key x y → key_le key y z → key_le key x z.
Proof.
  unfold key_le. destruct (key x), (key y), (key z); try done. lia.
Qed.

Lemma sort_insert_sorted x l :
  homogeneous key (x :: l) →
  StronglySorted (key_le key) l →
  StronglySorted (key_le key) (sort_insert cmp x l).
Proof.
  intros Hh Hs. induction Hs as [|y l Hs IH Hy].
  { repeat constructor. }
  cbn [sort_insert]. destruct (sorts_after cmp x y) eqn:Hxy.
  - assert (Hyx : key_le key y x).
    { apply sorts_after_spec in Hxy as (a & b & Ha & Hb & Hlt).
      unfold key_le. rewrite Ha, Hb. lia. }
    constructor.
    + apply IH. eapply homogeneous_perm; [|apply (homogeneous_cons_inv y)].
      * reflexivity.
      * eapply homogeneous_perm; [apply Permutation_swap|done].
    + rewrite sort_insert_perm. by constructor.
  - assert (Hle : key_le key x y).
    { destruct (key_le_total x y (y :: l) Hh) as [Hle|Hle]; [left|done|].
      unfold key_le in *.
      destruct (key x) as [a|] eqn:Ha, (key y) as [b|] eqn:Hb; try done.
      destruct (decide (a ≤ b)); [done|].
      assert (sorts_after cmp x y = true); [|congruence].
      apply sorts_after_spec. exists a, b. repeat split; [done..|lia]. }
    constructor; [by constructor|].
    constructor; [done|].
    eapply Forall_impl; [exact Hy|]. intros z. by apply key_le_trans.
Qed.

(** On a consistently ordered list the result is sorted. *)
Lemma Array_sort_sorted l :
  homogeneous key l → StronglySorted (key_le key) (Array_sort cmp l).
Proof.
  induction l as [|x l IH]; intros Hh; [constructor|].
  change (Array_sort cmp (x :: l)) with (sort_insert cmp x (Array_sort cmp l)).
  apply sort_insert_sorted.
  - eapply homogeneous_perm; [|exact Hh].
    constructor. symmetry. apply Array_sort_perm.
  - apply IH. by eapply homogeneous_cons_inv.
Qed.

Lemma has_key_nonempty v x l :
  x ∈ l → key x = v → List.filter (has_key key v) l ≠ [].
Proof.
  intros Hx Hv Hnil.
  assert (Hin : In x (List.filter (has_key key v) l)).
  { apply filter_In. split; [by apply list_elem_of_In|].
    unfold has_key. by apply bool_decide_eq_true. }
  by rewrite Hnil in Hin.
Qed.

Lemma has_key_elem v l :
  List.filter (has_key key v) l ≠ [] → ∃ x, x ∈ l ∧ key x = v.
Proof.
  destruct (List.filter (has_key key v) l) as [|x f] eqn:Hf; [done|]. intros _.
  assert (Hin : In x (List.filter (has_key key v) l)) by (rewrite Hf; by left).
  apply filter_In in Hin as [Hin Hk]. exists x. split.
  - by apply list_elem_of_In.
  - unfold has_key in Hk. by apply bool_decide_eq_true in Hk.
Qed.

Lemma key_le_antisym x y : key_le key x y → key_le key y x → key x = key y.
Proof.
  unfold key_le. destruct (key x), (key y); try done. intros. f_equal. lia.
Qed.

Lemma key_le_proper x x' y y' :
  key x = key x' → key y = key y' → key_le key x y → key_le key x' y'.
Proof. unfold key_le. by intros -> ->. Qed.

(** The head of a sorted list has the least key. *)
Lemma sorted_head_le x l y l' :
  StronglySorted (key_le key) (x :: l) →
  List.filter (has_key key (key y)) (x :: l)
  = List.filter (has_key key (key y)) (y :: l') →
  key_le key x y.
Proof.
  intros Hs Hf.
  destruct (has_key_elem (key y) (x :: l)) as (z & Hz & Hk).
  { rewrite Hf. by apply (has_key_nonempty _ y); [left|]. }
  apply StronglySorted_cons in Hs as [Hx _].
  apply elem_of_cons in Hz as [->|Hz].
  - unfold key_le. rewrite Hk. by destruct (key y); try lia.
  - rewrite Forall_forall in Hx. eapply key_le_proper; [done|exact Hk|]. by apply Hx.
Qed.

(** A sorted list is fixed by its elements of each key, in their order. *)
Lemma sorted_unique l1 l2 :
  StronglySorted (key_le key) l1 →
  StronglySorted (key_le key) l2 →
  (∀ v, List.filter (has_key key v) l1 = List.filter (has_key key v) l2) →
  l1 = l2.
Proof.
  revert l2. induction l1 as [|x l1 IH]; intros [|y l2] Hs1 Hs2 Hf; [done| | |].
  - exfalso. apply (has_key_nonempty (key y) y (y :: l2)); [left|done|].
    by rewrite <- Hf.
  - exfalso. apply (has_key_nonempty (key x) x (x :: l1)); [left|done|].
    by rewrite Hf.
  - assert (Hk : key x = key y).
    { apply key_le_antisym.
      - eapply sorted_head_le; [exact Hs1|apply Hf].
      - eapply sorted_head_le; [exact Hs2|symmetry; apply Hf]. }
    assert (Hxy : x = y).
    { specialize (Hf (key x)). cbn [List.filter] in Hf.
      assert (Hx : has_key key (key x) x = true) by by apply bool_decide_eq_true.
      assert (Hy : has_key key (key x) y = true) by by apply bool_decide_eq_true.
      rewrite Hx, Hy in Hf. by simplify_eq. }
    subst y. f_equal. apply IH.
    + by apply StronglySorted_cons in Hs1 as [_ ?].
    + by apply StronglySorted_cons in Hs2 as [_ ?].
    + intros v. specialize (Hf v). cbn [List.filter] in Hf.
      destruct (has_key key v x); by simplify_eq.
Qed.

(** Sorting again after more elements have been pushed onto a sorted
    array gives the sort of the whole. *)
Lemma Array_sort_app_sorted l l' :
  homogeneous key (l ++ l') →
  Array_sort cmp (Array_sort cmp l ++ l') = Array_sort cmp (l ++ l').
Proof.
  intros Hh.
  assert (Hh' : homogeneous key (Array_sort cmp l ++ l')).
  { eapply homogeneous_perm; [|exact Hh].
    apply Permutation_app_tail. symmetry. apply Array_sort_perm. }
  apply sorted_unique; [by apply Array_sort_sorted..|].
  intros v. rewrite !Array_sort_has_key, !List.filter_app.
  by rewrite Array_sort_has_key.
Qed.
End SortTheory.

(** ** Dates *)

Section Calendar.
Local Ltac Zify.zify_post_hook ::= Z.to_euclidean_division_equations.

Lemma civil_range days : let '(y, m, d) := civil days in 1 ≤ m ≤ 12 ∧ 1 ≤ d ≤ 31.
Proof.
  unfold civil. cbv zeta.
  repeat match goal with |- context [if ?b then _ else _] => destruct b eqn:? end.
  all: lia.
Qed.

Lemma MakeDay_civil days : let '(y, m, d) := civil days in MakeDay y m d = days.
Proof.
  unfold civil, MakeDay. cbv zeta.
  repeat match goal with |- context [if ?b then _ else _] => destruct b eqn:? end.
  all: lia.
Qed.
End Calendar.

Lemma civil_inj d1 d2 : civil d1 = civil d2 → d1 = d2.
Proof.
  intros Hc. pose proof (MakeDay_civil d1) as H1. pose proof (MakeDay_civil d2) as H2.
  rewrite Hc in H1. destruct (civil d2) as [[y m] d]. congruence.
Qed.

Lemma append_inj_prefix (a a' b b' : string) :
  String.length a = String.length a' →
  String.append a b = String.append a' b' → a = a' ∧ b = b'.
Proof.
  revert a'. induction a as [|c a IH]; intros [|c' a'] Hl Heq; try done.
  cbn in Hl, Heq. injection Heq as -> Heq.
  destruct (IH a') as [-> ->]; [lia|done|done].
Qed.

Lemma append_String c a b : String.append (String c a) b = String c (String.append a b).
Proof. done. Qed.

Lemma append_Empty b : String.append EmptyString b = b.
Proof. done. Qed.

Lemma value_from_app v a b :
  value_from v (String.append a b) = value_from (value_from v a) b.
Proof. revert v. induction a as [|c a IH]; intros v; [done|]. cbn. apply IH. Qed.

Lemma digit_val_char n : digit_val (digit_char n) = n mod 10.
Proof.
  unfold digit_val, digit_char.
  pose proof (Z.mod_pos_bound n 10 ltac:(lia)).
  rewrite N_ascii_embedding by lia. lia.
Qed.

Lemma digit_char_not_minus n : Ascii.eqb (digit_char n) "-" = false.
Proof.
  apply Ascii.eqb_neq. intros Heq.
  pose proof (digit_val_char n) as Hv. rewrite Heq in Hv.
  pose proof (Z.mod_pos_bound n 10 ltac:(lia)). unfold digit_val in Hv. cbn in Hv. lia.
Qed.

(** The digits [decimal_fuel] puts before [acc] read back as [n]. *)
Lemma decimal_fuel_spec fuel : ∀ n acc,
  0 ≤ n < 2 ^ Z.of_nat fuel →
  ∃ ds, decimal_fuel fuel n acc = String.append ds acc
        ∧ value_from 0 ds = n
        ∧ (fuel = O ∨ ∃ k r, ds = String (digit_char k) r).
Proof.
  induction fuel as [|f IH]; intros n acc Hn.
  { exists EmptyString. cbn in *. split; [done|]. split; [lia|by left]. }
  cbn [decimal_fuel]. destruct (n <? 10) eqn:Hlt.
  - exists (String (digit_char n) EmptyString). split; [done|].
    split; [|right; eauto]. cbn. rewrite digit_val_char.
    apply Z.ltb_lt in Hlt. rewrite Z.mod_small; lia.
  - apply Z.ltb_ge in Hlt.
    destruct (IH (n / 10) (String (digit_char n) acc)) as (ds & Hds & Hv & Hhd).
    { rewrite Nat2Z.inj_succ, Z.pow_succ_r in Hn by lia.
      split; [apply Z.div_pos; lia|].
      apply Z.div_lt_upper_bound; lia. }
    exists (String.append ds (String (digit_char n) EmptyString)). split; [|split].
    + rewrite Hds. clear. induction ds as [|c ds IHds]; [done|].
      rewrite !append_String. by f_equal.
    + rewrite value_from_app, Hv. cbn. rewrite digit_val_char.
      pose proof (Z.div_mod n 10 ltac:(lia)). lia.
    + right. destruct Hhd as [->|(k & r & ->)].
      * cbn in Hn. lia.
      * rewrite append_String. eauto.
Qed.

Lemma decimal_spec n :
  0 ≤ n →
  value_from 0 (decimal n) = n ∧ ∃ k r, decimal n = String (digit_char k) r.
Proof.
  intros Hn. unfold decimal.
  destruct (decimal_fuel_spec (S (Z.to_nat (Z.log2 n))) n EmptyString)
    as (ds & Hds & Hv & Hhd).
  { split; [done|]. rewrite Nat2Z.inj_succ, Z2Nat.id by apply Z.log2_nonneg.
    destruct (decide (n = 0)) as [->|Hpos]; [done|].
    apply Z.log2_spec. lia. }
  assert (Hnil : ∀ s, String.append s EmptyString = s).
  { induction s as [|c s IHs]; [done|]. by rewrite append_String, IHs. }
  rewrite Hnil in Hds. rewrite Hds. split; [done|].
  by destruct Hhd.
Qed.

Lemma pad_left_spec w s k r :
  s = String (digit_char k) r →
  value_from 0 (pad_left w s) = value_from 0 s
  ∧ ∃ k' r', pad_left w s = String (digit_char k') r'.
Proof.
  intros Hs. induction w as [|w [IHv IHh]]; cbn [pad_left].
  - destruct (String.length s <? 0)%nat; eauto.
  - destruct (String.length s <? S w)%nat; [|eauto]. split.
    + cbn [value_from]. by rewrite <- IHv.
    + exists 0, (pad_left w s). done.
Qed.

Lemma year_of_year_string y : year_of_string (year_string y) = y.
Proof.
  unfold year_string.
  destruct (decimal_spec (Z.abs y) ltac:(lia)) as [Hv (k & r & Hd)].
  destruct (pad_left_spec 4 _ k r Hd) as [Hpv (k' & r' & Hp)].
  destruct (y <? 0) eqn:Hneg.
  - rewrite append_String, append_Empty. cbn [year_of_string Ascii.eqb Bool.eqb].
    rewrite Hpv, Hv. apply Z.ltb_lt in Hneg. lia.
  - rewrite append_Empty, Hp. unfold year_of_string.
    rewrite digit_char_not_minus, <- Hp, Hpv, Hv. apply Z.ltb_ge in Hneg. lia.
Qed.

Lemma weekday_name_length w : String.length (weekday_name w) = 3%nat.
Proof. unfold weekday_name. by repeat case_match. Qed.

Lemma month_name_length m : String.length (month_name m) = 3%nat.
Proof. unfold month_name. by repeat case_match. Qed.

Lemma month_name_inj m1 m2 :
  1 ≤ m1 ≤ 12 → 1 ≤ m2 ≤ 12 → month_name m1 = month_name m2 → m1 = m2.
Proof.
  intros H1 H2.
  assert (Hc1 : m1 ∈ [1; 2; 3; 4; 5; 6; 7; 8; 9; 10; 11; 12]).
  { rewrite !elem_of_cons. lia. }
  assert (Hc2 : m2 ∈ [1; 2; 3; 4; 5; 6; 7; 8; 9; 10; 11; 12]).
  { rewrite !elem_of_cons. lia. }
  rewrite !elem_of_cons, elem_of_nil in Hc1, Hc2.
  destruct_or!; subst; try done; by cbn.
Qed.

Lemma day_string_length d :
  1 ≤ d ≤ 31 → String.length (pad_left 2 (decimal d)) = 2%nat.
Proof.
  intros Hd. rewrite <- (Z2Nat.id d) by lia.
  assert (Hn : (Z.to_nat d ≤ 31)%nat) by lia.
  revert Hn. generalize (Z.to_nat d). intros n Hn.
  do 32 (destruct n as [|n]; [reflexivity|]). lia.
Qed.

Lemma day_string_value d : 0 ≤ d → value_from 0 (pad_left 2 (decimal d)) = d.
Proof.
  intros Hd. destruct (decimal_spec d Hd) as [Hv (k & r & Hs)].
  destruct (pad_left_spec 2 _ k r Hs) as [Hpv _]. by rewrite Hpv.
Qed.

Lemma DateString_parts (W1 M1 D1 Y1 W2 M2 D2 Y2 : string) :
  String.length W1 = String.length W2 →
  String.length M1 = String.length M2 →
  String.length D1 = String.length D2 →
  (W1 ++ " " ++ M1 ++ " " ++ D1 ++ " " ++ Y1)%string
  = (W2 ++ " " ++ M2 ++ " " ++ D2 ++ " " ++ Y2)%string →
  M1 = M2 ∧ D1 = D2 ∧ Y1 = Y2.
Proof.
  intros HW HM HD Heq.
  apply append_inj_prefix in Heq as [_ Heq]; [|done].
  rewrite !append_String, !append_Empty in Heq. injection Heq as Heq.
  apply append_inj_prefix in Heq as [Hm Heq]; [|done].
  injection Heq as Heq.
  apply append_inj_prefix in Heq as [Hd Heq]; [|done].
  by injection Heq as Heq.
Qed.

(** [DateString] prints different days differently. *)
Lemma DateString_inj d1 d2 : DateString d1 = DateString d2 → d1 = d2.
Proof.
  intros Heq. apply civil_inj. unfold DateString in Heq.
  pose proof (civil_range d1) as Hr1. pose proof (civil_range d2) as Hr2.
  destruct (civil d1) as [[y1 m1] a1], (civil d2) as [[y2 m2] a2].
  destruct Hr1 as [Hm1 Ha1], Hr2 as [Hm2 Ha2].
  apply DateString_parts in Heq as (Hm & Ha & Hy).
  - apply month_name_inj in Hm; [|done..].
    apply (f_equal (value_from 0)) in Ha. rewrite !day_string_value in Ha by lia.
    apply (f_equal year_of_string) in Hy. rewrite !year_of_year_string in Hy.
    by subst.
  - by rewrite !weekday_name_length.
  - by rewrite !month_name_length.
  - by rewrite !day_string_length.
Qed.

(** The model at some dates: a date-time without offset is local time, a
    date alone is UTC and so falls on the evening before in Brasilia, and a
    string outside the format is no date. *)
Example new_Date_local :
  new_Date (H := Brasilia) "2024-03-10T09:00" = Some 1710072000000.
Proof. reflexivity. Qed.

Example new_Date_UTC :
  new_Date (H := Brasilia) "2024-03-10T12:00:00.000Z" = Some 1710072000000.
Proof. reflexivity. Qed.

Example toDateString_local :
  toDateString (H := Brasilia) (new_Date (H := Brasilia) "2024-03-10T09:00") = "Sun Mar 10 2024".
Proof. reflexivity. Qed.

Example toDateString_date_only :
  toDateString (H := Brasilia) (new_Date (H := Brasilia) "2024-03-10") = "Sat Mar 09 2024".
Proof. reflexivity. Qed.

Example toDateString_not_a_date :
  toDateString (H := Brasilia) (new_Date (H := Brasilia) "10/03/2024") = "Invalid Date".
Proof. reflexivity. Qed.

Example daysInMonth_March_2024 :
  map (option_map (getDate (H := Brasilia))) (daysInMonth (H := Brasilia) 1710072000000)
  = replicate 5 None ++ map (λ i, Some (Z.of_nat i)) (seq 1 31).
Proof. vm_compute. reflexivity. Qed.

Lemma DateString_valid ld : DateString ld ≠ "Invalid Date".
Proof.
  unfold DateString. destruct (civil ld) as [[y m] d].
  unfold weekday_name. repeat case_match; cbn; discriminate.
Qed.

Section DateTheory.
Context `{TimeZone}.

Lemma toDateString_invalid d : toDateString d = "Invalid Date" ↔ d = None.
Proof.
  destruct d as [t|]; cbn; [|done].
  split; [|done]. intros Hd. by apply DateString_valid in Hd.
Qed.

Lemma toDateString_inj t1 t2 :
  toDateString (Some t1) = toDateString (Some t2) ↔ localDay t1 = localDay t2.
Proof.
  cbn [toDateString]. split; [apply DateString_inj|by intros ->].
Qed.

Lemma localDay_UTC l : localDay (UTC l) = Day l.
Proof. unfold localDay, LocalTime, UTC. f_equal. lia. Qed.
End DateTheory.

(** ** The per-day index *)

Section AgendaTheory.
Context `{TimeZone}.

Lemma on_day_true k e : on_day k e = true ↔ eventDate e = k.
Proof. unfold on_day. apply bool_decide_eq_true. Qed.

(** The events of one day all have a time, or none has. *)
Lemma bucket_homogeneous k l : homogeneous eventTime (List.filter (on_day k) l).
Proof.
  destruct (decide (k = "Invalid Date")) as [->|Hk]; [right|left].
  all: apply Forall_forall; intros e He.
  all: apply list_elem_of_In, filter_In in He as [_ He].
  all: apply on_day_true in He; unfold eventDate, eventTime, getTime in *.
  - by apply toDateString_invalid.
  - destruct (new_Date (UnifiedEvent.date e)) eqn:Hd; [done|].
    by rewrite (proj2 (toDateString_invalid None)) in He.
Qed.

Lemma eventsByDate_step_lookup acc e k :
  eventsByDate_step acc e !! k
  = if decide (k = eventDate e)
    then Some (Array_sort byEventTime (default [] (acc !! k) ++ [e]))
    else acc !! k.
Proof.
  unfold eventsByDate_step. case_decide as Hk.
  - subst k. rewrite !lookup_alter_eq.
    destruct (acc !! eventDate e) as [b|] eqn:Hb.
    + by rewrite Hb.
    + by rewrite lookup_insert_eq.
  - rewrite !lookup_alter_ne by done.
    destruct (acc !! eventDate e); [done|]. by rewrite lookup_insert_ne.
Qed.

Lemma eventsByDate_snoc l e :
  eventsByDate (l ++ [e]) = eventsByDate_step (eventsByDate l) e.
Proof. unfold eventsByDate. by rewrite foldl_snoc. Qed.

(** The bucket of a day is the stable sort by time of the events of that
    day, and there is a bucket exactly for the days that have an event. *)
Lemma eventsByDate_lookup events k :
  eventsByDate events !! k
  = match List.filter (on_day k) events with
    | [] => None
    | _ => Some (Array_sort byEventTime (List.filter (on_day k) events))
    end.
Proof.
  induction events as [|e l IH] using rev_ind; [done|].
  rewrite eventsByDate_snoc, eventsByDate_step_lookup, List.filter_app.
  cbn [List.filter]. case_decide as Hk.
  - rewrite (proj2 (on_day_true k e)) by done.
    assert (Hb : default [] (eventsByDate l !! k)
                 = Array_sort byEventTime (List.filter (on_day k) l)).
    { rewrite IH. by destruct (List.filter (on_day k) l). }
    rewrite Hb. unfold byEventTime.
    rewrite (Array_sort_app_sorted eventTime).
    + by destruct (List.filter (on_day k) l).
    + pose proof (bucket_homogeneous k (l ++ [e])) as Hh.
      rewrite List.filter_app in Hh. cbn [List.filter] in Hh.
      by rewrite (proj2 (on_day_true k e)) in Hh.
  - assert (Hf : on_day k e = false).
    { apply not_true_is_false. rewrite on_day_true. congruence. }
    by rewrite Hf, app_nil_r.
Qed.
End AgendaTheory.

Section AgendaClaims.
Context `{TimeZone}.

Lemma UTC_sub a b : UTC a - UTC b = a - b.
Proof. unfold UTC. lia. Qed.

Lemma unifiedEvents_filter (P : UnifiedEvent.t → bool) appointments tasks :
  List.filter P (unifiedEvents appointments tasks)
  = List.filter P (map eventFromAppointment appointments)
    ++ List.filter P (map eventFromTask (List.filter notConcluded tasks)).
Proof. unfold unifiedEvents. apply List.filter_app. Qed.

Lemma bucket_elem events k bucket e :
  eventsByDate events !! k = Some bucket →
  e ∈ bucket ↔ e ∈ events ∧ eventDate e = k.
Proof.
  rewrite eventsByDate_lookup. intros Hb.
  assert (Hp : bucket ≡ₚ List.filter (on_day k) events).
  { destruct (List.filter (on_day k) events); simplify_eq.
    apply (Array_sort_perm eventTime). }
  rewrite Hp, !list_elem_of_In, filter_In, on_day_true. done.
Qed.

(** C4: the index has, for every day on which there is an event, one
    bucket under the local calendar day of these events as [toDateString]
    prints it: the bucket holds exactly the events of that day, in ascending
    order of their full timestamp; two events share a bucket exactly when
    their dates fall on the same local day, whatever the times of day; and an
    appointment at 2024-03-10T09:00 with a pending
    task due 2024-03-10T14:00 gives the bucket [appointment, task]. *)
Theorem eventsByDate_groups_by_day_sorted_by_time :
  (∀ events k bucket,
      eventsByDate events !! k = Some bucket →
      bucket ≡ₚ List.filter (on_day k) events
      ∧ StronglySorted (key_le eventTime) bucket
      ∧ (k ≠ "Invalid Date" → Forall (λ e, is_Some (eventTime e)) bucket))
  ∧ (∀ events e,
      e ∈ events →
      ∃ bucket, eventsByDate events !! eventDate e = Some bucket ∧ e ∈ bucket)
  ∧ (∀ e1 e2 t1 t2,
      eventTime e1 = Some t1 → eventTime e2 = Some t2 →
      (eventDate e1 = eventDate e2 ↔ localDay t1 = localDay t2))
  ∧ (∀ aid atitle atype tid ttitle tassigned ttype tcase tupdates,
      let app := Appointment.mk aid atitle "2024-03-10T09:00" atype in
      let task := Task.mk tid ttitle "2024-03-10T14:00" tassigned ttype PENDENTE
                    tcase tupdates false false None None in
      eventsByDate (unifiedEvents [app] [task]) !! "Sun Mar 10 2024"
      = Some [eventFromAppointment app; eventFromTask task]).
Proof.
  split; [|split; [|split]].
  - intros events k bucket Hb.
    assert (Hs : bucket = Array_sort byEventTime (List.filter (on_day k) events)).
    { rewrite eventsByDate_lookup in Hb.
      by destruct (List.filter (on_day k) events); simplify_eq. }
    split; [|split].
    + rewrite Hs. apply (Array_sort_perm eventTime).
    + rewrite Hs. apply (Array_sort_sorted eventTime), bucket_homogeneous.
    + intros Hk. apply Forall_forall. intros e He.
      apply (bucket_elem _ _ _ _ Hb) in He as [_ He].
      unfold eventDate, eventTime, getTime in *.
      destruct (new_Date (UnifiedEvent.date e)); [done|].
      by rewrite (proj2 (toDateString_invalid None)) in He.
  - intros events e He. rewrite eventsByDate_lookup.
    assert (Hin : e ∈ List.filter (on_day (eventDate e)) events).
    { apply list_elem_of_In, filter_In. split; [by apply list_elem_of_In|].
      by apply on_day_true. }
    destruct (List.filter (on_day (eventDate e)) events) as [|x f] eqn:Hf.
    { by apply elem_of_nil in Hin. }
    eexists. split; [done|]. unfold byEventTime.
    by rewrite (Array_sort_perm eventTime).
  - intros e1 e2 t1 t2 H1 H2. unfold eventDate, eventTime, getTime in *.
    rewrite H1, H2. apply toDateString_inj.
  - intros. rewrite eventsByDate_lookup.
    assert (Ha : new_Date "2024-03-10T09:00" = Some (UTC 1710061200000)).
    { unfold new_Date. lazy -[UTC]. done. }
    assert (Ht : new_Date "2024-03-10T14:00" = Some (UTC 1710079200000)).
    { unfold new_Date. lazy -[UTC]. done. }
    assert (Hda : eventDate (eventFromAppointment app) = "Sun Mar 10 2024").
    { unfold eventDate. cbn [eventFromAppointment UnifiedEvent.date app Appointment.date].
      rewrite Ha. cbn [toDateString]. rewrite localDay_UTC. by vm_compute. }
    assert (Hdt : eventDate (eventFromTask task) = "Sun Mar 10 2024").
    { unfold eventDate. cbn [eventFromTask UnifiedEvent.date task Task.dueDate].
      rewrite Ht. cbn [toDateString]. rewrite localDay_UTC. by vm_compute. }
    unfold unifiedEvents.
    change (List.filter notConcluded [task]) with [task].
    cbn [map List.app List.filter].
    apply on_day_true in Hda, Hdt. rewrite Hda, Hdt.
    cbn [Array_sort foldr sort_insert].
    assert (Hc : sorts_after byEventTime (eventFromAppointment app) (eventFromTask task)
                 = false).
    { unfold sorts_after, byEventTime, eventTime, getTime.
      cbn [eventFromAppointment eventFromTask UnifiedEvent.date app task
           Appointment.date Task.dueDate].
      rewrite Ha, Ht. cbn [num_sub]. rewrite UTC_sub. done. }
    by rewrite Hc.
Qed.
End AgendaClaims.

(** ** Order across the two kinds of entity *)

Lemma filter_keeps_order {A : Type} (P : A → bool) (l : list A) (i j : nat) a b :
  l !! i = Some a → l !! j = Some b → (i < j)%nat →
  P a = true → P b = true →
  ∃ l1 l2 l3, List.filter P l = l1 ++ a :: l2 ++ b :: l3.
Proof.
  intros Hi Hj Hlt Ha Hb.
  rewrite <- (take_drop_middle l i a Hi).
  assert (Hj' : drop (S i) l !! (j - S i)%nat = Some b).
  { rewrite lookup_drop. rewrite <- Hj. f_equal. lia. }
  rewrite <- (take_drop_middle _ _ b Hj').
  rewrite List.filter_app. cbn [List.filter]. rewrite Ha.
  rewrite List.filter_app. cbn [List.filter]. rewrite Hb.
  eauto.
Qed.

Lemma appointments_before_tasks (apps tasks l1 l2 l3 : list UnifiedEvent.t) t a :
  Forall fromAppointment apps → Forall fromTask tasks →
  fromTask t → fromAppointment a →
  apps ++ tasks ≠ l1 ++ t :: l2 ++ a :: l3.
Proof.
  intros Happs Htasks Ht Ha Heq.
  assert (Hno : ∀ e, fromTask e → fromAppointment e → False).
  { intros e. unfold fromTask, fromAppointment.
    by destruct (UnifiedEvent.original e). }
  rewrite Forall_forall in Happs. rewrite Forall_forall in Htasks.
  apply app_eq_app in Heq as [l [[Hl1 Hl2]|[Hl1 Hl2]]].
  - destruct l as [|x l]; cbn in Hl2.
    + apply (Hno a); [|done]. apply Htasks. rewrite <- Hl2. set_solver.
    + injection Hl2 as Hx Hl2.
      apply (Hno t); [done|]. apply Happs. rewrite Hl1, Hx. set_solver.
  - apply (Hno a); [|done]. apply Htasks. rewrite Hl2. set_solver.
Qed.

Lemma Forall_List_filter {A : Type} (P : A → bool) (Q : A → Prop) l :
  Forall Q l → Forall Q (List.filter P l).
Proof.
  rewrite !Forall_forall. intros HQ y Hy.
  apply list_elem_of_In, filter_In in Hy as [Hy _].
  by apply HQ, list_elem_of_In.
Qed.

Lemma Forall_map_all {A B : Type} (f : A → B) (Q : B → Prop) l :
  (∀ x, Q (f x)) → Forall Q (map f l).
Proof. intros HQ. apply Forall_map, Forall_true. intros x. apply HQ. Qed.

(** C10: in every bucket of the index of the unified events, an event made
    from an appointment stands before every event made from a task that has
    exactly the same timestamp. *)
Theorem appointment_precedes_task_on_equal_time `{TimeZone}
    (appointments : list Appointment.t) (tasks : list Task.t)
    (k : string) (bucket : list UnifiedEvent.t) (i j : nat)
    (ea et : UnifiedEvent.t) :
  eventsByDate (unifiedEvents appointments tasks) !! k = Some bucket →
  bucket !! i = Some ea → bucket !! j = Some et →
  fromAppointment ea → fromTask et →
  eventTime ea = eventTime et →
  (i < j)%nat.
Proof.
  intros Hb Hi Hj Hea Het Htime.
  destruct (lt_eq_lt_dec i j) as [[Hlt|Heq]|Hgt]; [done| |exfalso].
  { exfalso. subst j. rewrite Hi in Hj. simplify_eq.
    unfold fromAppointment, fromTask in *.
    by destruct (UnifiedEvent.original et). }
  assert (Hs : bucket = Array_sort byEventTime
                 (List.filter (on_day k) (unifiedEvents appointments tasks))).
  { rewrite eventsByDate_lookup in Hb.
    by destruct (List.filter (on_day k) (unifiedEvents appointments tasks));
      simplify_eq. }
  destruct (filter_keeps_order (has_key eventTime (eventTime et)) bucket j i et ea)
    as (l1 & l2 & l3 & Hf); [done..| | |].
  { by apply bool_decide_eq_true. }
  { by apply bool_decide_eq_true. }
  rewrite Hs in Hf. unfold byEventTime in Hf.
  rewrite (Array_sort_has_key eventTime) in Hf.
  rewrite unifiedEvents_filter, List.filter_app in Hf.
  eapply appointments_before_tasks; [| | | |exact Hf]; [| |done..].
  - by do 2 apply Forall_List_filter; apply Forall_map_all.
  - by do 2 apply Forall_List_filter; apply Forall_map_all.
Qed.

(** ** The update thread *)

Lemma filter_split {A : Type} (P : A → bool) (l l1 r : list A) a :
  List.filter P l = l1 ++ a :: r →
  ∃ m1 m2, l = m1 ++ a :: m2 ∧ List.filter P m1 = l1 ∧ List.filter P m2 = r.
Proof.
  revert l1. induction l as [|x l IH]; intros l1 Hf.
  { by destruct l1. }
  cbn [List.filter] in Hf. destruct (P x) eqn:Hx.
  - destruct l1 as [|y l1]; cbn in Hf; injection Hf as -> Hf.
    + exists [], l. by rewrite Hf.
    + destruct (IH _ Hf) as (m1 & m2 & -> & <- & <-).
      exists (y :: m1), m2. cbn [List.filter]. by rewrite Hx.
  - destruct (IH _ Hf) as (m1 & m2 & -> & <- & <-).
    exists (x :: m1), m2. cbn [List.filter]. by rewrite Hx.
Qed.

Lemma sorted_time_le {A : Type} (key : A → option Z) (l : list A) :
  Forall (λ a, is_Some (key a)) l →
  StronglySorted (key_le key) l → StronglySorted (time_le key) l.
Proof.
  intros Hv Hs. induction Hs as [|x l Hs IH Hx]; [constructor|].
  apply Forall_cons in Hv as [[a Ha] Hv].
  constructor; [by apply IH|].
  rewrite Forall_forall in Hv. rewrite Forall_forall in Hx. apply Forall_forall.
  intros y Hy. destruct (Hv y Hy) as [b Hb]. specialize (Hx y Hy).
  unfold key_le in Hx. rewrite Ha, Hb in Hx. by exists a, b.
Qed.

(** C2: when the timestamps of a task's updates are dates, the thread as
    displayed is the stored sequence reordered, non-decreasing in timestamp,
    with the updates of each timestamp in the order in which they were
    appended; two updates of equal timestamp keep their relative position;
    and since the display sorts the stored array in place, appending further
    updates to the sorted array and displaying again gives the thread of the
    whole append sequence. *)
Theorem displayedUpdates_sorted_stable `{TimeZone} (task : Task.t) :
  Forall (λ u, is_Some (updateTime u)) (Task.updates task) →
  StronglySorted (time_le updateTime) (displayedUpdates task)
  ∧ displayedUpdates task ≡ₚ Task.updates task
  ∧ (∀ v, List.filter (has_key updateTime v) (displayedUpdates task)
          = List.filter (has_key updateTime v) (Task.updates task))
  ∧ (∀ i j a b,
        Task.updates task !! i = Some a → Task.updates task !! j = Some b →
        (i < j)%nat → updateTime a = updateTime b →
        ∃ i' j', displayedUpdates task !! i' = Some a
                 ∧ displayedUpdates task !! j' = Some b ∧ (i' < j')%nat)
  ∧ (∀ more,
        Forall (λ u, is_Some (updateTime u)) more →
        Array_sort byTimestamp (displayedUpdates task ++ more)
        = Array_sort byTimestamp (Task.updates task ++ more)).
Proof.
  intros Hvalid. unfold displayedUpdates, byTimestamp.
  assert (Hperm := Array_sort_perm updateTime (Task.updates task)).
  assert (Hstable := λ v, Array_sort_has_key updateTime v (Task.updates task)).
  split; [|split; [done|split; [done|split]]].
  - apply sorted_time_le; [by rewrite Hperm|].
    apply Array_sort_sorted. by left.
  - intros i j a b Hi Hj Hlt Hab.
    destruct (filter_keeps_order (has_key updateTime (updateTime a))
                (Task.updates task) i j a b) as (l1 & l2 & l3 & Hf); [done..| | |].
    { by apply bool_decide_eq_true. }
    { by apply bool_decide_eq_true. }
    rewrite <- Hstable in Hf.
    apply filter_split in Hf as (m1 & m2 & Hm & _ & Hf).
    apply filter_split in Hf as (n1 & n2 & Hn & _ & _).
    exists (length m1), (length m1 + S (length n1))%nat.
    rewrite Hm, Hn. split; [|split; [|lia]].
    + by apply list_lookup_middle.
    + rewrite lookup_app_r by lia.
      replace (length m1 + S (length n1) - length m1)%nat
        with (S (length n1)) by lia.
      cbn. by apply list_lookup_middle.
  - intros more Hmore. apply Array_sort_app_sorted.
    left. by apply Forall_app.
Qed.

(** ** The overdue flag *)

Lemma before_today `{TimeZone} (now t : Z) :
  t < setHours0 now ↔ localDay t < localDay now.
Proof.
  unfold setHours0, localDay, UTC, MakeDate, LocalTime, Day, msPerDay.
  pose proof (Z.div_mod (t + LocalTZA) 86400000 ltac:(lia)).
  pose proof (Z.mod_pos_bound (t + LocalTZA) 86400000 ltac:(lia)).
  pose proof (Z.div_mod (now + LocalTZA) 86400000 ltac:(lia)).
  pose proof (Z.mod_pos_bound (now + LocalTZA) 86400000 ltac:(lia)).
  lia.
Qed.

Lemma notConcluded_true task : notConcluded task = true ↔ Task.status task ≠ CONCLUIDA.
Proof. unfold notConcluded. by case_decide. Qed.

(** C5: a task is flagged overdue exactly when its due date is a date whose
    local calendar day is strictly before the local calendar day of now and
    its status is not CONCLUIDA; so a concluded task is never overdue, a task
    due at any time of today is not overdue, and the flag depends on the two
    dates through their calendar days only. *)
Theorem isOverdue_iff_due_day_before_today `{TimeZone} (now : Z) (task : Task.t) :
  (isOverdue now task = true
   ↔ (∃ day, dueDay task = Some day ∧ day < localDay now)
     ∧ Task.status task ≠ CONCLUIDA)
  ∧ (Task.status task = CONCLUIDA → isOverdue now task = false)
  ∧ (dueDay task = Some (localDay now) → isOverdue now task = false)
  ∧ (∀ now' task',
        localDay now' = localDay now → dueDay task' = dueDay task →
        Task.status task' = Task.status task →
        isOverdue now' task' = isOverdue now task).
Proof.
  assert (Hiff : ∀ n tk, isOverdue n tk = true
            ↔ (∃ day, dueDay tk = Some day ∧ day < localDay n)
              ∧ Task.status tk ≠ CONCLUIDA).
  { intros n tk. unfold isOverdue, dueDay.
    rewrite andb_true_iff, notConcluded_true.
    apply and_iff_compat_r. unfold getTime.
    destruct (new_Date (Task.dueDate tk)) as [t|]; cbn.
    - rewrite Z.ltb_lt, before_today. split.
      + intros Hlt. by exists (localDay t).
      + by intros (day & [= <-] & Hlt).
    - split; [done|]. by intros (day & ? & _). }
  split; [apply Hiff|]. split; [|split].
  - intros Hdone. apply not_true_is_false. rewrite Hiff. by intros [_ ?].
  - intros Hday. apply not_true_is_false. rewrite Hiff, Hday.
    intros [(day & [= <-] & Hlt) _]. lia.
  - intros now' task' Hnow Hdue Hstatus.
    destruct (isOverdue now task) eqn:Ho.
    + apply Hiff. rewrite Hdue, Hnow, Hstatus. by apply Hiff.
    + apply not_true_is_false. rewrite Hiff, Hdue, Hnow, Hstatus, <- Hiff.
      by rewrite Ho.
Qed.

(** ** The three views *)

Section ViewsTheory.
Context {E : Type} `{Lifecycle E}.

Lemma visibility_exactly_one (e : E) :
  exactly_one (is_active e = true) (is_archived e = true) (is_trashed e = true).
Proof.
  unfold exactly_one, is_active, is_archived, is_trashed.
  destruct (isDeleted e), (isArchived e); cbn; naive_solver.
Qed.

Lemma views_perm (l : list E) : l ≡ₚ activeOf l ++ archivedOf l ++ trashedOf l.
Proof.
  unfold activeOf, archivedOf, trashedOf.
  induction l as [|x l IH]; [done|]. cbn [List.filter].
  destruct (is_active x) eqn:Ha, (is_archived x) eqn:Hb, (is_trashed x) eqn:Hc.
  all: unfold is_active, is_archived, is_trashed in Ha, Hb, Hc.
  all: try (destruct (isDeleted x), (isArchived x); discriminate).
  - cbn. by constructor.
  - cbn [List.app]. rewrite <- Permutation_middle. by constructor.
  - rewrite app_assoc. rewrite <- Permutation_middle, <- app_assoc. by constructor.
Qed.

Lemma views_exactly_one (l : list E) (e : E) :
  e ∈ l → exactly_one (e ∈ activeOf l) (e ∈ archivedOf l) (e ∈ trashedOf l).
Proof.
  intros He. unfold activeOf, archivedOf, trashedOf.
  assert (Hin : ∀ P : E → bool, e ∈ List.filter P l ↔ P e = true).
  { intros P. rewrite list_elem_of_In, filter_In, <- list_elem_of_In. tauto. }
  unfold exactly_one. rewrite !Hin. apply visibility_exactly_one.
Qed.

Lemma visibility_views (e : E) :
  (visibility e = Active ↔ is_active e = true)
  ∧ (visibility e = Archived ↔ is_archived e = true)
  ∧ (visibility e = Trashed ↔ is_trashed e = true).
Proof.
  unfold visibility, is_active, is_archived, is_trashed.
  destruct (isDeleted e), (isArchived e); cbn; naive_solver.
Qed.
End ViewsTheory.

(** C6: of the three predicates of the views, active, archived and trashed,
    exactly one holds of every task and of every case, whatever its flags;
    the three lists of a page are a rearrangement of the whole collection,
    and every task (case) of the collection is in exactly one of them. *)
Theorem lifecycle_views_partition (tasks : list Task.t) (cases : list Case.t) :
  (∀ t : Task.t,
      exactly_one (is_active t = true) (is_archived t = true) (is_trashed t = true))
  ∧ (∀ c : Case.t,
      exactly_one (is_active c = true) (is_archived c = true) (is_trashed c = true))
  ∧ tasks ≡ₚ activeTasks tasks ++ archivedTasks tasks ++ trashedTasks tasks
  ∧ cases ≡ₚ activeCases cases ++ archivedCases cases ++ trashedCases cases
  ∧ (∀ t, t ∈ tasks →
      exactly_one (t ∈ activeTasks tasks) (t ∈ archivedTasks tasks)
        (t ∈ trashedTasks tasks))
  ∧ (∀ c, c ∈ cases →
      exactly_one (c ∈ activeCases cases) (c ∈ archivedCases cases)
        (c ∈ trashedCases cases))
  ∧ (∀ t : Task.t,
      is_active t = (negb (Task.isDeleted t) && negb (Task.isArchived t))
      ∧ is_archived t = (negb (Task.isDeleted t) && Task.isArchived t)
      ∧ is_trashed t = Task.isDeleted t)
  ∧ (∀ c : Case.t,
      is_active c = (negb (Case.isDeleted c) && negb (Case.isArchived c))
      ∧ is_archived c = (negb (Case.isDeleted c) && Case.isArchived c)
      ∧ is_trashed c = Case.isDeleted c).
Proof.
  repeat split.
  - apply visibility_exactly_one.
  - apply visibility_exactly_one.
  - apply views_perm.
  - apply views_perm.
  - apply views_exactly_one.
  - apply views_exactly_one.
Qed.

(** ** Colours *)

(** C9: [getEventColor] gives a colour class for every type value; the
    class of AUDIENCIA and the class of 'Prazo' are given to no other value
    and differ from each other; every value without a case of its own gets the
    neutral slate class, which no value with a case of its own gets. *)
Theorem getEventColor_total_with_neutral_default :
  (∀ ty, getEventColor ty ∈ [red; yellow; blue; purple; orange; teal; slate])
  ∧ getEventColor (ofAppointment AUDIENCIA) = red
  ∧ getEventColor (ofTask Prazo) = yellow
  ∧ (∀ ty, getEventColor ty = red ↔ ty = ofAppointment AUDIENCIA)
  ∧ (∀ ty, getEventColor ty = yellow ↔ ty = ofTask Prazo)
  ∧ (∀ ty, getEventColor ty = slate
           ↔ ty ∉ [ofAppointment AUDIENCIA; ofTask Prazo; ofAppointment REUNIAO;
                   ofAppointment SUSTENTACAO_ORAL; ofAppointment PRAZO_INTERNO;
                   ofTask Tarefa])
  ∧ getEventColor (ofAppointment OUTRO) = slate.
Proof.
  split; [|split; [done|split; [done|split; [|split; [|split; [|done]]]]]].
  - intros [[]|[]]; cbn; set_solver.
  - intros [[]|[]]; by cbn.
  - intros [[]|[]]; by cbn.
  - intros [[]|[]]; cbn; split; try done.
    all: try (intros _ Hin; repeat (apply elem_of_cons in Hin as [?|Hin]; [done|]);
              by apply elem_of_nil in Hin).
    all: intros Hn; exfalso; apply Hn; rewrite !elem_of_cons; tauto.
Qed.

(** ** The calendar gate *)

(** C8: disconnecting after a connection attempt, whatever its outcome,
    leaves [googleCalendarConnected] false (and a successful attempt had set
    it); while it is false the page renders the connection prompt, which holds
    no event at all, whatever the appointments, the tasks and the month are. *)
Theorem disconnected_agenda_shows_no_events `{TimeZone} :
  (∀ random settings,
      Settings.googleCalendarConnected
        (handleDisconnectGoogleCalendar (handleConnectGoogleCalendar random settings))
      = false)
  ∧ (∀ random settings,
      5404319552844595 < 2 * random →
      Settings.googleCalendarConnected (handleConnectGoogleCalendar random settings)
      = true)
  ∧ (∀ settings currentDate appointments tasks,
      Settings.googleCalendarConnected settings = false →
      AgendaPage settings currentDate appointments tasks = SyncPrompt
      ∧ shownChips (AgendaPage settings currentDate appointments tasks) = []
      ∧ ∀ currentDate' appointments' tasks',
          AgendaPage settings currentDate' appointments' tasks'
          = AgendaPage settings currentDate appointments tasks).
Proof.
  split; [done|split].
  - intros random settings Hr. unfold handleConnectGoogleCalendar.
    by rewrite (proj2 (Z.ltb_lt _ _) Hr).
  - intros settings currentDate appointments tasks Hoff.
    unfold AgendaPage. by rewrite Hoff.
Qed.

(** ** Attachments *)

(** C3: with a task selected, a file of exactly 5 MiB is read and then
    stored as an update with its attachment; a file of 5 MiB + 1 byte (and any
    larger file) only raises the too-large toast: nothing is read, no update
    is passed to [addTaskUpdate], and the store is as it was. *)
Theorem handleFileChange_size_limit {Store : Type}
    (addTaskUpdate : string → UpdateDraft.t → Store → Store)
    (file : File.t) (others : list File.t) (task : Task.t) (w : World) :
  attachmentLimit = 5242880
  ∧ (File.size file = 5 * 1024 * 1024 →
      handleFileChange (file :: others) (Some task)
      = [readAsDataURL file;
         set_input_value EmptyString;
         call_addTaskUpdate (Task.id task)
           {| UpdateDraft.text := String.append "Anexo: " (File.name file);
              UpdateDraft.attachmentName := Some (File.name file);
              UpdateDraft.attachmentMimeType := Some (File.type file);
              UpdateDraft.attachmentData := Some (File.dataURL file) |};
         toast_success
           (String.append "Arquivo " (String.append quote
              (String.append (File.name file) (String.append quote " anexado."))))]
      ∧ store (run addTaskUpdate (handleFileChange (file :: others) (Some task)) w)
        = addTaskUpdate (Task.id task)
            {| UpdateDraft.text := String.append "Anexo: " (File.name file);
               UpdateDraft.attachmentName := Some (File.name file);
               UpdateDraft.attachmentMimeType := Some (File.type file);
               UpdateDraft.attachmentData := Some (File.dataURL file) |}
            (store w))
  ∧ (File.size file = 5 * 1024 * 1024 + 1 →
      handleFileChange (file :: others) (Some task)
      = [toast_error "O arquivo é muito grande (máx 5MB)."])
  ∧ (5 * 1024 * 1024 < File.size file →
      handleFileChange (file :: others) (Some task)
      = [toast_error "O arquivo é muito grande (máx 5MB)."]
      ∧ List.filter readsFile (handleFileChange (file :: others) (Some task)) = []
      ∧ List.filter storesUpdate (handleFileChange (file :: others) (Some task)) = []
      ∧ store (run addTaskUpdate (handleFileChange (file :: others) (Some task)) w)
        = store w
      ∧ filesRead (run addTaskUpdate (handleFileChange (file :: others) (Some task)) w)
        = filesRead w)
  ∧ (File.size file ≤ 5 * 1024 * 1024 →
      ∃ rest, handleFileChange (file :: others) (Some task) = readAsDataURL file :: rest
              ∧ List.filter storesUpdate rest ≠ []).
Proof.
  assert (Hbig : 5 * 1024 * 1024 < File.size file →
            handleFileChange (file :: others) (Some task)
            = [toast_error "O arquivo é muito grande (máx 5MB)."]).
  { intros Hs. unfold handleFileChange, attachmentLimit.
    by rewrite (proj2 (Z.ltb_lt _ _) Hs). }
  assert (Hok : File.size file ≤ 5 * 1024 * 1024 →
            (attachmentLimit <? File.size file) = false).
  { intros Hs. apply Z.ltb_ge. unfold attachmentLimit. lia. }
  split; [done|split; [|split; [|split]]].
  - intros Hs. unfold handleFileChange. rewrite Hok by lia. done.
  - intros Hs. apply Hbig. lia.
  - intros Hs. rewrite (Hbig Hs). done.
  - intros Hs. unfold handleFileChange. rewrite (Hok Hs). eauto.
Qed.

(** ** Transitions of the lifecycle store *)

Section LifecycleTheory.
Context {E : Type} `{Lifecycle E}.

Lemma transition_ok pre f id (entities : gmap string E) e :
  entities !! id = Some e → pre e = true →
  transition pre f id entities = Ok (<[id := f e]> entities).
Proof. intros He Hpre. unfold transition. by rewrite He, Hpre. Qed.

Lemma softDelete_ok now id (entities : gmap string E) e :
  entities !! id = Some e → isDeleted e = false →
  softDelete now id entities = Ok (<[id := setDeleted true (Some now) e]> entities).
Proof. intros He Hd. apply transition_ok; [done|]. by rewrite Hd. Qed.

Lemma restore_ok id (entities : gmap string E) e :
  entities !! id = Some e → isDeleted e = true →
  restore id entities = Ok (<[id := setDeleted false None e]> entities).
Proof. intros He Hd. by apply transition_ok. Qed.

Lemma toggleArchive_ok now id (entities : gmap string E) e :
  entities !! id = Some e → isDeleted e = false →
  toggleArchive now id entities
  = Ok (<[id := if isArchived e then setArchived false None e
                else setArchived true (Some now) e]> entities).
Proof. intros He Hd. unfold toggleArchive, transition. by rewrite He, Hd. Qed.
End LifecycleTheory.

(** C7: moving an entity to the trash leaves [isArchived] as it is, and
    restoring it from the trash gives back the visibility state it had before;
    archiving an active entity, trashing it and restoring it leaves it
    Archived. *)
Theorem restore_returns_pre_delete_archive_state {E : Type} `{Lifecycle E}
    (entities : gmap string E) (id : string) (e : E) (now1 now2 : string) :
  entities !! id = Some e →
  isDeleted e = false →
  (∃ trashed e1,
      softDelete now1 id entities = Ok trashed
      ∧ trashed !! id = Some e1
      ∧ isArchived e1 = isArchived e
      ∧ visibility e1 = Trashed
      ∧ ∃ restored e2,
          restore id trashed = Ok restored
          ∧ restored !! id = Some e2
          ∧ isArchived e2 = isArchived e
          ∧ visibility e2 = visibility e)
  ∧ (visibility e = Active →
      ∃ final e3,
        toggleArchive now1 id entities
          >>= softDelete now2 id >>= restore id = Ok final
        ∧ final !! id = Some e3
        ∧ isArchived e3 = true
        ∧ visibility e3 = Archived).
Proof.
  intros He Hd. split.
  - eexists _, _. split; [by apply softDelete_ok|].
    split; [apply lookup_insert_eq|].
    split; [apply isArchived_setDeleted|].
    split; [unfold visibility; by rewrite isDeleted_setDeleted|].
    eexists _, _. split.
    { eapply restore_ok; [apply lookup_insert_eq|apply isDeleted_setDeleted]. }
    split; [apply lookup_insert_eq|].
    split; [by rewrite !isArchived_setDeleted|].
    unfold visibility.
    by rewrite isDeleted_setDeleted, !isArchived_setDeleted, Hd.
  - intros Hact. assert (Ha : isArchived e = false).
    { unfold visibility in Hact. rewrite Hd in Hact. by destruct (isArchived e). }
    rewrite (toggleArchive_ok now1 id entities e He Hd), Ha. cbn [and_then].
    erewrite softDelete_ok;
      [|apply lookup_insert_eq|by rewrite isDeleted_setArchived]. cbn [and_then].
    erewrite restore_ok; [|apply lookup_insert_eq|apply isDeleted_setDeleted].
    eexists _, _. split; [done|]. split; [apply lookup_insert_eq|].
    assert (Harch : isArchived
              (setDeleted false None
                 (setDeleted true (Some now2) (setArchived true (Some now1) e)))
              = true).
    { by rewrite !isArchived_setDeleted, isArchived_setArchived. }
    split; [done|]. unfold visibility.
    by rewrite isDeleted_setDeleted, Harch.
Qed.

(** ** Which tasks reach the agenda *)

Lemma eventFromTask_in_unifiedEvents appointments tasks t :
  eventFromTask t ∈ unifiedEvents appointments tasks
  ↔ t ∈ tasks ∧ Task.status t ≠ CONCLUIDA.
Proof.
  unfold unifiedEvents. rewrite elem_of_app, !list_elem_of_In, !in_map_iff. split.
  - intros [(a & Ha & _)|(t' & Ht' & Hin)]; [done|].
    injection Ht' as _ _ _ _ ->. apply filter_In in Hin as [Hin Hs].
    by apply notConcluded_true in Hs.
  - intros [Hin Hs]. right. exists t. split; [done|].
    apply filter_In. split; [done|]. by apply notConcluded_true.
Qed.

(** C1, on the code: a task has an event in the unified list exactly when
    its status is not CONCLUIDA, whatever its [isDeleted] and [isArchived]
    flags; a pending task in the trash, and likewise an archived one, has its
    event in the list and its chip on the rendered calendar. *)
Theorem unifiedEvents_ignores_visibility `{TimeZone} :
  (∀ appointments tasks t,
      eventFromTask t ∈ unifiedEvents appointments tasks
      ↔ t ∈ tasks ∧ Task.status t ≠ CONCLUIDA)
  ∧ (let trashed := Task.mk "t1" "Protocolar" "2024-03-10T14:00" "Ana" Prazo PENDENTE
                      None [] true false None None in
     is_active trashed = false
     ∧ unifiedEvents [] [trashed] = [eventFromTask trashed]
     ∧ eventsByDate (unifiedEvents [] [trashed]) !! "Sun Mar 10 2024"
       = Some [eventFromTask trashed])
  ∧ (let archived := Task.mk "t2" "Protocolar" "2024-03-10T14:00" "Ana" Prazo PENDENTE
                       None [] false true None None in
     is_active archived = false
     ∧ unifiedEvents [] [archived] = [eventFromTask archived]).
Proof.
  split; [apply eventFromTask_in_unifiedEvents|].
  split; [|done].
  intros trashed. split; [done|split; [done|]].
  rewrite eventsByDate_lookup.
  assert (Ht : new_Date "2024-03-10T14:00" = Some (UTC 1710079200000)).
  { unfold new_Date. lazy -[UTC]. done. }
  assert (Hd : on_day "Sun Mar 10 2024" (eventFromTask trashed) = true).
  { apply on_day_true. unfold eventDate.
    cbn [eventFromTask UnifiedEvent.date trashed Task.dueDate].
    rewrite Ht. cbn [toDateString]. rewrite localDay_UTC. by vm_compute. }
  unfold unifiedEvents. change (List.filter notConcluded [trashed]) with [trashed].
  cbn [map List.app List.filter]. by rewrite Hd.
Qed.

(** ** The calendar, read backwards *)

Section CalendarInverse.
Local Ltac Zify.zify_post_hook ::= Z.to_euclidean_division_equations.














End CalendarInverse.









(** ** The calendar grid *)

Section Grid.
Context `{TimeZone}.









End Grid.

(** ** The month arrows *)

Section Navigation.
Context `{TimeZone}.










End Navigation.

(** ** The rendered month *)

Section CalendarCells.
Context `{TimeZone}.





End CalendarCells.

(** ** Sorting and filtering *)

Section SortFilter.
Context {A : Type} (key : A → option Z).

Lemma List_filter_comm (P Q : A → bool) l :
  List.filter P (List.filter Q l) = List.filter Q (List.filter P l).
Proof.
  induction l as [|x l IH]; [done|]. cbn [List.filter].
  destruct (P x) eqn:HP, (Q x) eqn:HQ; cbn [List.filter]; rewrite ?HP, ?HQ, IH; done.
Qed.

Lemma StronglySorted_List_filter (R : A → A → Prop) (P : A → bool) l :
  StronglySorted R l → StronglySorted R (List.filter P l).
Proof.
  induction 1 as [|x l Hs IH Hx]; [constructor|]. cbn [List.filter].
  destruct (P x); [|done]. constructor; [done|].
  rewrite Forall_forall in Hx. apply Forall_forall. intros y Hy.
  apply Hx. by apply list_elem_of_In, filter_In in Hy as [Hy%list_elem_of_In _].
Qed.

Lemma homogeneous_List_filter (P : A → bool) l :
  homogeneous key l → homogeneous key (List.filter P l).
Proof.
  intros [Hl|Hl]; [left|right].
  all: rewrite Forall_forall in Hl; apply Forall_forall; intros y Hy.
  all: apply Hl; by apply list_elem_of_In, filter_In in Hy as [Hy%list_elem_of_In _].
Qed.

Lemma List_filter_perm (P : A → bool) l l' :
  l ≡ₚ l' → List.filter P l ≡ₚ List.filter P l'.
Proof.
  induction 1 as [|x l l' Hp IH|x y l|l1 l2 l3 H1 IH1 H2 IH2]; cbn [List.filter].
  - done.
  - destruct (P x); by rewrite IH.
  - destruct (P x), (P y); try done. apply Permutation_swap.
  - by rewrite IH1.
Qed.

Lemma Array_sort_nil l :
  Array_sort (λ a b, num_sub (key a) (key b)) l = [] → l = [].
Proof.
  intros Hs. pose proof (Array_sort_perm key l) as Hp. rewrite Hs in Hp.
  by apply Permutation_nil in Hp.
Qed.

(** Filtering a sorted array is sorting the filtered one. *)
Lemma Array_sort_List_filter (P : A → bool) l :
  homogeneous key l →
  List.filter P (Array_sort (λ a b, num_sub (key a) (key b)) l)
  = Array_sort (λ a b, num_sub (key a) (key b)) (List.filter P l).
Proof.
  intros Hh. apply (sorted_unique key).
  - apply StronglySorted_List_filter. by apply Array_sort_sorted.
  - apply Array_sort_sorted. by apply homogeneous_List_filter.
  - intros v. rewrite List_filter_comm, !Array_sort_has_key. apply List_filter_comm.
Qed.
End SortFilter.

(** ** The buckets of the index *)

Section Buckets.
Context `{TimeZone}.

Lemma eventsByDate_step_insert acc e :
  eventsByDate_step acc e
  = <[eventDate e :=
        Array_sort byEventTime (default [] (acc !! eventDate e) ++ [e])]> acc.
Proof.
  apply map_eq. intros k. rewrite eventsByDate_step_lookup, lookup_insert.
  repeat case_decide; congruence.
Qed.

Lemma indexSize_insert k bucket (index : gmap string (list UnifiedEvent.t)) :
  indexSize (<[k := bucket]> index)
  = (length bucket + indexSize (delete k index))%nat.
Proof.
  rewrite <- insert_delete_eq. unfold indexSize.
  rewrite map_fold_insert_L; [done| |apply lookup_delete_eq].
  intros. lia.
Qed.

Lemma indexSize_lookup k (index : gmap string (list UnifiedEvent.t)) :
  indexSize index
  = (length (default [] (index !! k)) + indexSize (delete k index))%nat.
Proof.
  destruct (index !! k) as [bucket|] eqn:Hk; cbn.
  - unfold indexSize. rewrite (map_fold_delete_L _ _ k bucket index); [done| |done].
    intros. lia.
  - by rewrite delete_id.
Qed.

(** X5: the index has a bucket for a key exactly when some event prints
    that date; no bucket is empty; the buckets together hold as many events as
    were indexed; and the events whose date is no date sit, in their order of
    arrival, in the bucket [Invalid Date]. *)
Theorem eventsByDate_buckets (events : list UnifiedEvent.t) :
  (∀ k, is_Some (eventsByDate events !! k) ↔ ∃ e, e ∈ events ∧ eventDate e = k)
  ∧ (∀ k bucket, eventsByDate events !! k = Some bucket → bucket ≠ [])
  ∧ indexSize (eventsByDate events) = length events
  ∧ (∀ e, e ∈ events → eventTime e = None →
       ∃ bucket, eventsByDate events !! "Invalid Date" = Some bucket
                 ∧ bucket = List.filter (λ e, bool_decide (eventTime e = None)) events).
Proof.
  split; [|split; [|split]].
  - intros k. rewrite eventsByDate_lookup.
    destruct (List.filter (on_day k) events) as [|x l] eqn:Hf; split.
    + by intros [? ?].
    + intros (e & He & Hk). exfalso.
      assert (Hin : In e (List.filter (on_day k) events)).
      { apply filter_In. split; [by apply list_elem_of_In|by apply on_day_true]. }
      by rewrite Hf in Hin.
    + intros _. exists x.
      assert (Hin : In x (List.filter (on_day k) events)) by (rewrite Hf; by left).
      apply filter_In in Hin as [Hin Hk]. split; [by apply list_elem_of_In|].
      by apply on_day_true.
    + by eexists.
  - intros k bucket. rewrite eventsByDate_lookup.
    destruct (List.filter (on_day k) events) as [|x l] eqn:Hf; [done|].
    intros Hb ->.
    assert (Hs : Array_sort byEventTime (x :: l) = []) by congruence.
    unfold byEventTime in Hs. by apply (Array_sort_nil eventTime) in Hs.
  - induction events as [|e l IH] using rev_ind; [done|].
    rewrite eventsByDate_snoc, eventsByDate_step_insert, indexSize_insert.
    rewrite length_app. cbn [length]. rewrite <- IH.
    rewrite (indexSize_lookup (eventDate e) (eventsByDate l)).
    unfold byEventTime.
    rewrite (Permutation_length (Array_sort_perm eventTime _)), length_app.
    cbn [length]. lia.
  - intros e He Hnone. rewrite eventsByDate_lookup.
    assert (Hsame : ∀ x, on_day "Invalid Date" x = bool_decide (eventTime x = None)).
    { intros x. apply bool_decide_ext. unfold eventDate, eventTime, getTime.
      apply toDateString_invalid. }
    rewrite (List.filter_ext _ _ Hsame).
    set (F := List.filter (λ x, bool_decide (eventTime x = None)) events).
    assert (Hall : Forall (λ y, eventTime y = None) F).
    { apply Forall_forall. intros y Hy.
      apply list_elem_of_In, filter_In in Hy as [_ Hy].
      by apply bool_decide_eq_true in Hy. }
    assert (HF : Array_sort byEventTime F = F).
    { apply (sorted_unique eventTime).
      - unfold byEventTime. apply Array_sort_sorted. by right.
      - clear -Hall. induction Hall as [|y l' Hy Hl IHl]; [constructor|].
        constructor; [done|]. eapply Forall_impl; [exact Hl|].
        intros z Hz. unfold key_le. by rewrite Hy, Hz.
      - intros v. unfold byEventTime. by rewrite Array_sort_has_key. }
    assert (Hin : In e F).
    { apply filter_In. split; [by apply list_elem_of_In|by apply bool_decide_eq_true]. }
    exists F. split; [|done]. destruct F as [|x l]; [done|]. by rewrite HF.
Qed.
End Buckets.

(** ** The task list *)

Section TaskListTheory.
Context `{TimeZone}.

Lemma tasksToDisplaySource_filter view tasks :
  tasksToDisplaySource view tasks = List.filter (inView view) tasks.
Proof. by destruct view as [[]|]. Qed.

Lemma filter_andb {A : Type} (P Q : A → bool) l :
  List.filter (λ x, P x && Q x) l = List.filter Q (List.filter P l).
Proof.
  induction l as [|x l IH]; [done|]. cbn [List.filter].
  destruct (P x); cbn [andb List.filter]; [destruct (Q x)|]; by rewrite IH.
Qed.

(** X6: the task list holds exactly the tasks of the view that pass the
    status filter, each as often as it occurs; the filter is ignored in the
    trash and in the archive; and when the due dates are dates, the list is
    the stable sort by due date of those tasks, ascending. *)
Theorem filteredTasks_is_sorted_view (view : option ViewParam) (filter : StatusFilter)
    (tasks : list Task.t) :
  filteredTasks view filter tasks
  ≡ₚ List.filter (λ t, inView view t && passesFilter view filter t) tasks
  ∧ (∀ t, t ∈ filteredTasks view filter tasks
          ↔ t ∈ tasks ∧ inView view t = true ∧ passesFilter view filter t = true)
  ∧ (∀ v, filteredTasks (Some v) filter tasks = filteredTasks (Some v) showAll tasks)
  ∧ (Forall (λ t, is_Some (dueTime t)) tasks →
     filteredTasks view filter tasks
     = Array_sort byDueDate
         (List.filter (λ t, inView view t && passesFilter view filter t) tasks)
     ∧ StronglySorted (time_le dueTime) (filteredTasks view filter tasks)).
Proof.
  assert (Hform : filteredTasks view filter tasks
            = List.filter (passesFilter view filter)
                (Array_sort byDueDate (List.filter (inView view) tasks))).
  { unfold filteredTasks. rewrite tasksToDisplaySource_filter.
    assert (Htrue : ∀ l : list Task.t, List.filter (λ _, true) l = l).
    { induction l as [|x l IH]; [done|]. cbn. by rewrite IH. }
    destruct view as [v|], filter as [|f]; cbn [passesFilter]; by rewrite ?Htrue. }
  assert (Hperm : filteredTasks view filter tasks
            ≡ₚ List.filter (λ t, inView view t && passesFilter view filter t) tasks).
  { rewrite Hform, filter_andb. apply List_filter_perm. unfold byDueDate.
    apply (Array_sort_perm dueTime). }
  split; [exact Hperm|]. split; [|split].
  - intros t. rewrite Hperm, !list_elem_of_In, filter_In, andb_true_iff. tauto.
  - done.
  - intros Hvalid.
    assert (Hh : homogeneous dueTime (List.filter (inView view) tasks)).
    { apply homogeneous_List_filter. by left. }
    assert (Heq : filteredTasks view filter tasks
              = Array_sort byDueDate
                  (List.filter (λ t, inView view t && passesFilter view filter t) tasks)).
    { rewrite Hform, filter_andb. unfold byDueDate.
      by apply (Array_sort_List_filter dueTime). }
    split; [exact Heq|]. rewrite Heq. apply sorted_time_le.
    + unfold byDueDate. rewrite (Array_sort_perm dueTime).
      rewrite Forall_forall in Hvalid. apply Forall_forall. intros t Ht.
      apply Hvalid. by apply list_elem_of_In, filter_In in Ht as [Ht%list_elem_of_In _].
    + unfold byDueDate. apply Array_sort_sorted. rewrite filter_andb.
      by apply homogeneous_List_filter.
Qed.

Lemma localDay_mono a b : a ≤ b → localDay a ≤ localDay b.
Proof.
  intros Hab. unfold localDay, Day, LocalTime.
  apply Z.div_le_mono; [unfold msPerDay|]; lia.
Qed.

(** X7: a task that is not concluded and has a date as due date is
    overdue from the local midnight that ends its due day, and not before;
    once overdue it stays overdue as time goes on. *)
Theorem isOverdue_from_next_midnight (now : Z) (task : Task.t) (due : Z) :
  dueTime task = Some due →
  Task.status task ≠ CONCLUIDA →
  (isOverdue now task = true ↔ UTC (MakeDate (localDay due + 1) 0) ≤ now)
  ∧ (∀ later, now ≤ later → isOverdue now task = true → isOverdue later task = true).
Proof.
  intros Hdue Hstatus.
  assert (Hiff : ∀ n, isOverdue n task = true ↔ UTC (MakeDate (localDay due + 1) 0) ≤ n).
  { intros n. unfold isOverdue. unfold dueTime in Hdue. rewrite Hdue. cbn [num_lt].
    rewrite andb_true_iff, Z.ltb_lt, (before_today n due), notConcluded_true.
    unfold UTC, MakeDate, localDay, Day, LocalTime, msPerDay.
    pose proof (Z.div_mod (n + LocalTZA) 86400000 ltac:(lia)).
    pose proof (Z.mod_pos_bound (n + LocalTZA) 86400000 ltac:(lia)).
    split; [intros [Hlt _]|intros Hle; split; [|done]]; lia. }
  split; [apply Hiff|]. intros later Hle Hnow. apply Hiff. apply Hiff in Hnow. lia.
Qed.
End TaskListTheory.

(** ** The handlers of the tasks page *)

Lemma skip_space_length s r :
  skip_space s = Some r → (String.length r < String.length s)%nat.
Proof.
  unfold skip_space. intros Hs.
  repeat (case_match; simplify_eq; cbn [String.length]; try lia).
Qed.

Lemma trimStart_fuel_empty fuel s :
  trimStart_fuel fuel s = EmptyString → all_space s.
Proof.
  revert s. induction fuel as [|f IH]; intros s Hs; cbn in Hs.
  - subst. constructor.
  - destruct (skip_space s) as [r|] eqn:Hr.
    + eapply all_space_skip; [done|]. by apply IH.
    + subst. constructor.
Qed.

Lemma all_space_trimStart_fuel s :
  all_space s → ∀ fuel, (String.length s ≤ fuel)%nat →
  trimStart_fuel fuel s = EmptyString.
Proof.
  induction 1 as [|s r Hr Hall IH]; intros fuel Hfuel.
  - by destruct fuel.
  - pose proof (skip_space_length s r Hr) as Hlen.
    destruct fuel as [|f]; [lia|]. cbn. rewrite Hr. apply IH. lia.
Qed.

Lemma trimStart_fuel_head fuel : ∀ s,
  (String.length s ≤ fuel)%nat → skip_space (trimStart_fuel fuel s) = None.
Proof.
  induction fuel as [|f IH]; intros s Hfuel; cbn [trimStart_fuel].
  - destruct s; [done|]. cbn in Hfuel. lia.
  - destruct (skip_space s) as [r|] eqn:Hr; [|done].
    apply IH. pose proof (skip_space_length s r Hr). lia.
Qed.

Lemma blank_all_space s : blank s = true ↔ all_space s.
Proof.
  unfold blank, trimStart. rewrite String.eqb_eq. split.
  - apply trimStart_fuel_empty.
  - intros Hall. by apply all_space_trimStart_fuel.
Qed.

Lemma trimEnd_empty s : trimEnd s = EmptyString ↔ s = EmptyString ∨ all_space s.
Proof.
  destruct s as [|c r]; cbn [trimEnd].
  - split; [by left|done].
  - destruct (blank (String c r)) eqn:Hb.
    + split; [|done]. intros _. right. by apply blank_all_space.
    + split; [done|]. intros [?|Hall]; [done|].
      apply blank_all_space in Hall. congruence.
Qed.

(** A text trims to nothing exactly when it is all white space. *)
Lemma trim_empty s : trim s = EmptyString ↔ all_space s.
Proof.
  unfold trim. rewrite trimEnd_empty. split.
  - intros [Hs|Hall].
    + by apply (trimStart_fuel_empty (String.length s)).
    + assert (Hhead : skip_space (trimStart s) = None).
      { by apply trimStart_fuel_head. }
      assert (Hnil : trimStart s = EmptyString).
      { destruct Hall as [|t r Hr _]; [done|congruence]. }
      by apply (trimStart_fuel_empty (String.length s)).
  - intros Hall. left. by apply all_space_trimStart_fuel.
Qed.

(** X8: sending an update does nothing when no task is selected or the
    text is all white space: nothing is stored and the text area keeps its
    content; otherwise one update is stored with the text as typed, not
    trimmed, and the text area is emptied. *)
Theorem handleAddUpdate_needs_text (selectedTask : option Task.t) (text : string) :
  (selectedTask = None ∨ all_space text →
   handleAddUpdate selectedTask text = ([], text))
  ∧ (∀ task, selectedTask = Some task → ¬ all_space text →
     handleAddUpdate selectedTask text
     = ([call_addTaskUpdate (Task.id task)
           {| UpdateDraft.text := text;
              UpdateDraft.attachmentName := None;
              UpdateDraft.attachmentMimeType := None;
              UpdateDraft.attachmentData := None |};
         toast_success "Atualização adicionada!"], EmptyString))
  ∧ (List.filter storesUpdate (handleAddUpdate selectedTask text).1 ≠ []
     ↔ is_Some selectedTask ∧ ¬ all_space text).
Proof.
  unfold handleAddUpdate.
  destruct selectedTask as [task|]; [|split; [done|split; [done|]]].
  - destruct (String.eqb (trim text) EmptyString) eqn:Ht.
    + apply String.eqb_eq, trim_empty in Ht.
      split; [done|]. split; [by intros ? _ ?|]. cbn. split; [done|]. by intros [_ ?].
    + apply String.eqb_neq in Ht. rewrite trim_empty in Ht.
      split; [by intros [?|?]|]. split; [by intros ? [= <-] _|].
      cbn. split; [|done]. intros _. split; [by eexists|done].
  - cbn. split; [done|]. by intros [[? ?] _].
Qed.

(** X9: without a file or without a selected task the file handler only
    resets the input; of several files only the first counts; a file over the
    limit leaves the value of the input as it was, a file within the limit is
    the one file read and the input is reset. *)
Theorem handleFileChange_without_upload {Store : Type}
    (addTaskUpdate : string → UpdateDraft.t → Store → Store)
    (file : File.t) (others : list File.t) (task : Task.t) (w : World) :
  (∀ selectedTask, handleFileChange [] selectedTask = [set_input_value EmptyString])
  ∧ (∀ files, handleFileChange files None = [set_input_value EmptyString])
  ∧ handleFileChange (file :: others) (Some task) = handleFileChange [file] (Some task)
  ∧ (attachmentLimit < File.size file →
     inputValue (run addTaskUpdate (handleFileChange (file :: others) (Some task)) w)
     = inputValue w)
  ∧ (File.size file ≤ attachmentLimit →
     inputValue (run addTaskUpdate (handleFileChange (file :: others) (Some task)) w)
     = EmptyString
     ∧ filesRead (run addTaskUpdate (handleFileChange (file :: others) (Some task)) w)
       = filesRead w ++ [file]).
Proof.
  split; [done|]. split; [by intros [|? ?]|]. split; [done|]. split.
  - intros Hbig. unfold handleFileChange.
    by rewrite (proj2 (Z.ltb_lt _ _) Hbig).
  - intros Hfit. unfold handleFileChange.
    by rewrite (proj2 (Z.ltb_ge _ _) Hfit).
Qed.

(** ** The cards and handlers of the cases page *)






(** X11: when the question is declined, the handlers that move a task or
    a case to the trash or delete a case for good do nothing at all; when a
    task is trashed it is no longer the selected one; trashing or deleting the
    case whose details are open closes the details; the selected case is kept. *)
Theorem deletions_wait_for_confirmation (confirm : string → bool) (id : string)
    (selectedTask : option Task.t) (st : CasesState.t) :
  (confirm "Tem certeza que deseja mover esta tarefa para a lixeira?" = false →
   handleSoftDeleteTask confirm id selectedTask = ([], selectedTask))
  ∧ (confirm "Tem certeza que deseja mover este processo para a lixeira?" = false →
     handleSoftDeleteCase confirm id st = ([], st))
  ∧ (confirm "Esta ação é irreversível. Deseja excluir permanentemente este processo?"
     = false →
     handlePermanentDelete confirm id st = ([], st))
  ∧ (∀ t, (handleSoftDeleteTask confirm id selectedTask).2 = Some t →
       selectedTask = Some t
       ∧ (Task.id t = id →
          confirm "Tem certeza que deseja mover esta tarefa para a lixeira?" = false))
  ∧ (∀ c, CasesState.selectedCase st = Some c → Case.id c = id →
       (confirm "Tem certeza que deseja mover este processo para a lixeira?" = true →
        CasesState.isDetailsModalOpen (handleSoftDeleteCase confirm id st).2 = false)
       ∧ (confirm
            "Esta ação é irreversível. Deseja excluir permanentemente este processo?"
          = true →
          CasesState.isDetailsModalOpen (handlePermanentDelete confirm id st).2 = false))
  ∧ CasesState.selectedCase (handleSoftDeleteCase confirm id st).2
    = CasesState.selectedCase st
  ∧ CasesState.selectedCase (handlePermanentDelete confirm id st).2
    = CasesState.selectedCase st.
Proof.
  unfold handleSoftDeleteTask, handleSoftDeleteCase, handlePermanentDelete.
  split; [by intros ->|]. split; [by intros ->|]. split; [by intros ->|].
  split; [|split; [|split]].
  - intros t. destruct (confirm _); cbn; [|by intros ->].
    destruct selectedTask as [t'|]; [|done].
    destruct (String.eqb (Task.id t') id) eqn:Hid; [done|].
    intros [= ->]. split; [done|]. intros Heq. apply String.eqb_neq in Hid. done.
  - intros c Hsel Hid. unfold closeDetailsOf. rewrite Hsel.
    rewrite (proj2 (String.eqb_eq _ _) Hid). split; by intros ->.
  - unfold closeDetailsOf. destruct (confirm _); [|done]. cbn.
    destruct (CasesState.selectedCase st) as [c|] eqn:Hc; [|done].
    by destruct (String.eqb (Case.id c) id).
  - unfold closeDetailsOf. destruct (confirm _); [|done]. cbn.
    destruct (CasesState.selectedCase st) as [c|] eqn:Hc; [|done].
    by destruct (String.eqb (Case.id c) id).
Qed.

(** X12: a click on an event of the unified list opens the form, titled
    for editing, with the appointment the event was made from and its date;
    on an event made from a task it leaves the state as it is and shows one
    toast. *)
Theorem click_opens_the_source_appointment `{TimeZone}
    (appointments : list Appointment.t) (tasks : list Task.t)
    (event : UnifiedEvent.t) (st : AgendaState.t) :
  event ∈ unifiedEvents appointments tasks →
  (∃ appointment,
      appointment ∈ appointments
      ∧ event = eventFromAppointment appointment
      ∧ handleEventClick event st
        = ({| AgendaState.isFormModalOpen := true;
              AgendaState.selectedAppointment := Some appointment;
              AgendaState.selectedDate :=
                Some (new_Date (Appointment.date appointment)) |}, [])
      ∧ formTitle (handleEventClick event st).1 = "Editar Compromisso")
  ∨ (∃ task,
      task ∈ tasks
      ∧ Task.status task ≠ CONCLUIDA
      ∧ event = eventFromTask task
      ∧ (handleEventClick event st).1 = st
      ∧ length (handleEventClick event st).2 = 1%nat).
Proof.
  unfold unifiedEvents. rewrite elem_of_app, !list_elem_of_In, !in_map_iff.
  intros [(a & <- & Ha)|(t & <- & Ht)]; [left|right].
  - exists a. by rewrite list_elem_of_In.
  - apply filter_In in Ht as [Ht Hs]. exists t.
    rewrite list_elem_of_In. by apply notConcluded_true in Hs.
Qed.

(** X13: two type values that share a colour class other than the
    neutral one are the same value. *)
Theorem getEventColor_tells_cased_types_apart (a b : EventType) :
  getEventColor a = getEventColor b → getEventColor a ≠ slate → a = b.
Proof.
  destruct a as [[]|[]], b as [[]|[]]; cbn; intros Heq Hns; try done.
Qed.

(** ** The index and the order of the collections *)

Section Order.
Context {A : Type} (key : A → option Z).




End Order.

Section IndexOrder.
Context `{TimeZone}.

End IndexOrder.

(** ** Repeated navigation *)

Section ManyMonths.
Context `{TimeZone}.
Local Ltac Zify.zify_post_hook ::= Z.to_euclidean_division_equations.


Lemma months_after_range n y m : 1 ≤ (months_after n (y, m)).2 ≤ 12.
Proof. unfold months_after. cbn [fst snd]. lia. Qed.

End ManyMonths.

(** ** The theorems at the sample data *)

Lemma appointment_precedes_task_witness :
  eventsByDate (H := Brasilia) (unifiedEvents [hearing] [filing]) !! "Sun Mar 10 2024"
  = Some [eventFromAppointment hearing; eventFromTask filing]
  ∧ eventTime (H := Brasilia) (eventFromAppointment hearing)
    = eventTime (H := Brasilia) (eventFromTask filing)
  ∧ (0 < 1)%nat.
Proof.
  assert (Hb : eventsByDate (H := Brasilia) (unifiedEvents [hearing] [filing])
               !! "Sun Mar 10 2024"
               = Some [eventFromAppointment hearing; eventFromTask filing]).
  { vm_compute. reflexivity. }
  split; [exact Hb|]. split; [reflexivity|].
  apply (appointment_precedes_task_on_equal_time (H := Brasilia)
           [hearing] [filing] "Sun Mar 10 2024"
           [eventFromAppointment hearing; eventFromTask filing] 0 1
           (eventFromAppointment hearing) (eventFromTask filing)).
  - exact Hb.
  - reflexivity.
  - reflexivity.
  - exact I.
  - exact I.
  - reflexivity.
Defined.

Lemma displayedUpdates_witness :
  Forall (λ u, is_Some (updateTime (H := Brasilia) u)) (Task.updates busyTask)
  ∧ displayedUpdates (H := Brasilia) busyTask
    = [note "u2" "2024-03-10T12:00:00.000Z";
       note "u3" "2024-03-10T12:00:00.000Z";
       note "u1" "2024-03-10T12:00:00.001Z"]
  ∧ StronglySorted (time_le (updateTime (H := Brasilia)))
      (displayedUpdates (H := Brasilia) busyTask).
Proof.
  assert (Hv : Forall (λ u, is_Some (updateTime (H := Brasilia) u))
                 (Task.updates busyTask)).
  { repeat constructor; eexists; vm_compute; reflexivity. }
  split; [exact Hv|]. split; [vm_compute; reflexivity|].
  exact (proj1 (displayedUpdates_sorted_stable (H := Brasilia) busyTask Hv)).
Defined.

Lemma restore_witness :
  ({[ "t1" := filing ]} : gmap string Task.t) !! "t1" = Some filing
  ∧ isDeleted filing = false
  ∧ visibility filing = Active
  ∧ ∃ final e3,
      toggleArchive "2024-03-10T12:00:00.000Z" "t1"
        ({[ "t1" := filing ]} : gmap string Task.t)
        >>= softDelete "2024-03-11T12:00:00.000Z" "t1" >>= restore "t1" = Ok final
      ∧ final !! "t1" = Some e3
      ∧ isArchived e3 = true
      ∧ visibility e3 = Archived.
Proof.
  assert (Hin : ({[ "t1" := filing ]} : gmap string Task.t) !! "t1" = Some filing).
  { apply lookup_singleton_eq. }
  split; [exact Hin|]. split; [reflexivity|]. split; [reflexivity|].
  destruct (restore_returns_pre_delete_archive_state
              ({[ "t1" := filing ]} : gmap string Task.t) "t1" filing
              "2024-03-10T12:00:00.000Z" "2024-03-11T12:00:00.000Z")
    as [_ Hseq].
  - exact Hin.
  - reflexivity.
  - apply Hseq. reflexivity.
Defined.

Lemma isOverdue_witness :
  dueDay (H := Brasilia) filing = Some 19792
  ∧ localDay (H := Brasilia) 1710156600000 = 19793
  ∧ Task.status filing ≠ CONCLUIDA
  ∧ isOverdue (H := Brasilia) 1710156600000 filing = true.
Proof.
  assert (Hdue : dueDay (H := Brasilia) filing = Some 19792).
  { vm_compute. reflexivity. }
  assert (Hstatus : Task.status filing ≠ CONCLUIDA) by discriminate.
  split; [exact Hdue|]. split; [reflexivity|]. split; [exact Hstatus|].
  apply (proj1 (isOverdue_iff_due_day_before_today (H := Brasilia)
                  1710156600000 filing)).
  split; [|exact Hstatus].
  exists 19792. split; [exact Hdue|]. reflexivity.
Defined.

Lemma handleFileChange_witness :
  File.size oversized = 5 * 1024 * 1024 + 1
  ∧ handleFileChange [oversized] (Some filing)
    = [toast_error "O arquivo é muito grande (máx 5MB)."]
  ∧ store (run recordCall (handleFileChange [oversized] (Some filing)) freshWorld)
    = []
  ∧ File.size fitting = 5 * 1024 * 1024
  ∧ store (run recordCall (handleFileChange [fitting] (Some filing)) freshWorld)
    = [("t1", UpdateDraft.mk "Anexo: procuracao.pdf" (Some "procuracao.pdf")
                (Some "application/pdf")
                (Some "data:application/pdf;base64,JVBERi0x"))].
Proof.
  destruct (handleFileChange_size_limit recordCall oversized [] filing freshWorld)
    as (_ & _ & Hover & Hbig & _).
  destruct (handleFileChange_size_limit recordCall fitting [] filing freshWorld)
    as (_ & Hfit & _).
  split; [reflexivity|]. split; [apply Hover; reflexivity|].
  split; [apply Hbig; reflexivity|]. split; [reflexivity|].
  destruct Hfit as [_ Hstore]; [reflexivity|]. exact Hstore.
Defined.




Lemma filteredTasks_witness :
  Forall (λ t, is_Some (dueTime (H := Brasilia) t)) [busyTask; filing; notice]
  ∧ filteredTasks (H := Brasilia) None (only PENDENTE) [busyTask; filing; notice]
    = [filing]
  ∧ StronglySorted (time_le (dueTime (H := Brasilia)))
      (filteredTasks (H := Brasilia) None showAll [busyTask; filing; notice]).
Proof.
  assert (Hv : Forall (λ t, is_Some (dueTime (H := Brasilia) t))
                 [busyTask; filing; notice]).
  { repeat constructor; eexists; vm_compute; reflexivity. }
  split; [exact Hv|]. split; [vm_compute; reflexivity|].
  destruct (filteredTasks_is_sorted_view (H := Brasilia) None showAll
              [busyTask; filing; notice]) as (_ & _ & _ & Hsorted).
  exact (proj2 (Hsorted Hv)).
Defined.

Lemma isOverdue_midnight_witness :
  dueTime (H := Brasilia) filing = Some 1710072000000
  ∧ Task.status filing ≠ CONCLUIDA
  ∧ isOverdue (H := Brasilia) 1710125999999 filing = false
  ∧ isOverdue (H := Brasilia) 1710126000000 filing = true.
Proof.
  assert (Hs : Task.status filing ≠ CONCLUIDA) by discriminate.
  split; [reflexivity|]. split; [exact Hs|]. split; [reflexivity|].
  apply (proj1 (isOverdue_from_next_midnight (H := Brasilia) 1710126000000 filing
                  1710072000000 eq_refl Hs)).
  vm_compute. discriminate.
Defined.

Lemma handleAddUpdate_witness :
  all_space "  "
  ∧ handleAddUpdate (Some filing) "  " = ([], "  ").
Proof.
  assert (Hblank : all_space "  ").
  { eapply all_space_skip; [reflexivity|].
    eapply all_space_skip; [reflexivity|]. constructor. }
  split; [exact Hblank|].
  apply (proj1 (handleAddUpdate_needs_text (Some filing) "  ")). by right.
Defined.


Lemma click_witness :
  eventFromAppointment hearing ∈ unifiedEvents [hearing] [filing]
  ∧ formTitle
      (handleEventClick (H := Brasilia) (eventFromAppointment hearing)
         (AgendaState.mk false None None)).1
    = "Editar Compromisso".
Proof.
  assert (Hin : eventFromAppointment hearing ∈ unifiedEvents [hearing] [filing]).
  { apply list_elem_of_here. }
  split; [exact Hin|].
  destruct (click_opens_the_source_appointment (H := Brasilia) [hearing] [filing]
              (eventFromAppointment hearing) (AgendaState.mk false None None) Hin)
    as [(a & _ & _ & _ & Htitle)|(t & _ & _ & Heq & _)].
  - exact Htitle.
  - discriminate Heq.
Defined.

Lemma getEventColor_witness :
  getEventColor (ofTask Prazo) = getEventColor (ofTask Prazo)
  ∧ getEventColor (ofTask Prazo) ≠ slate
  ∧ ofTask Prazo = ofTask Prazo.
Proof.
  assert (Hns : getEventColor (ofTask Prazo) ≠ slate) by discriminate.
  split; [reflexivity|]. split; [exact Hns|].
  exact (getEventColor_tells_cased_types_apart (ofTask Prazo) (ofTask Prazo) eq_refl Hns).
Defined.


